(** * proxyscrape.scrapers: a shallow embedding and its verified properties

    The development follows [src/proxyscrape/scrapers.py]:
    - Python values, exceptions and the [Proxy] named tuple;
    - the fragment of BeautifulSoup the table scrapers use ([find],
      [find_all], [text]) over a document tree;
    - the fragment of [re] the proxy-daily scrapers use (literals, [\s],
      [[0-9]{m,n}], [.*] under [re.S], [re.findall]) as a backtracking
      matcher with Python's greedy, leftmost priority;
    - the nine scraper functions, [RESOURCE_MAP] and [RESOURCE_TYPE_MAP];
    - [ProxyResource.refresh], sequentially as a state-and-exception monad
      and concurrently as an interleaving of atomic steps.

    Modelling conventions.  Text is [string]: a str whose code points lie
    below 256, one [ascii] per code point; [str.lower] is Python's
    lower-casing on that range.  Times are Python floats, that is binary64
    numbers with their rounding: [float], with the kernel's addition and
    comparisons.  The readings of [time.time()] are given by an oracle
    indexed by the number of readings taken so far.  The network is an
    oracle, too: the outcome of a scraper invocation is indexed by the
    number of invocations made so far. *)

From Stdlib Require Import Floats.
From Stdlib Require Import List Ascii String ZArith Lia Bool Arith ListSet.
Import ListNotations.
Open Scope string_scope.
Set Warnings "-register-all".
Set Warnings "-inexact-float".

(** ** Python values and exceptions *)

Inductive value :=
| VNone
| VBool (b : bool)
| VStr (s : string)
| VInt (z : Z).

Inductive exn :=
| InvalidHTMLError
| RequestNotOKError
| AttributeError
| KeyError
| IndexError
| TypeError
| ConnectionError
| ParserRejectedMarkup.

Inductive result (A : Type) :=
| Ok (a : A)
| Raise (e : exn).
Arguments Ok {A} a.
Arguments Raise {A} e.

Definition bind {A B} (r : result A) (k : A -> result B) : result B :=
  match r with
  | Ok a => k a
  | Raise e => Raise e
  end.

Notation "x <- r ;; k" := (bind r (fun x => k))
  (at level 61, r at next level, right associativity).

Definition value_eq_dec (x y : value) : {x = y} + {x <> y}.
Proof.
  decide equality.
  - apply bool_dec.
  - apply string_dec.
  - apply Z.eq_dec.
Defined.

Definition exn_eq_dec (x y : exn) : {x = y} + {x <> y}.
Proof. decide equality. Defined.

(** ** Proxy = namedtuple('Proxy', [host, port, code, country, anonymous,
       type, source]) *)

Record Proxy := mkProxy {
  host : value;
  port : value;
  code : value;
  country : value;
  anonymous : value;
  type : value;
  source : value
}.

Definition Proxy_eq_dec (x y : Proxy) : {x = y} + {x <> y}.
Proof. decide equality; apply value_eq_dec. Defined.

(** A Python [set] of proxies: a list kept free of duplicates by [add]. *)
Definition add (p : Proxy) (proxies : set Proxy) : set Proxy :=
  set_add Proxy_eq_dec p proxies.

(** ** str methods *)

(** [c.lower()] for a code point below 256: the letters A to Z, and the
    capital letters of Latin-1 (code points 192 to 214 and 216 to 222; 215
    is the multiplication sign), move up by 32; every other code point is
    its own lower case. *)
Definition lower_ascii (c : ascii) : ascii :=
  let n := nat_of_ascii c in
  if (((65 <=? n) && (n <=? 90)) || ((192 <=? n) && (n <=? 214))
      || ((216 <=? n) && (n <=? 222)))%nat
  then ascii_of_nat (n + 32) else c.

Fixpoint lower (s : string) : string :=
  match s with
  | EmptyString => EmptyString
  | String c s' => String (lower_ascii c) (lower s')
  end.

(** [s.split(sep)] for a one-character separator. *)
Fixpoint split (sep : ascii) (s : string) : list string :=
  match s with
  | EmptyString => [EmptyString]
  | String c s' =>
      if Ascii.eqb c sep then EmptyString :: split sep s'
      else match split sep s' with
           | h :: t => String c h :: t
           | [] => [String c EmptyString]
           end
  end.

(** [x in (a, b, ...)] for strings. *)
Definition in_tuple (x : string) (t : list string) : bool :=
  existsb (String.eqb x) t.

(** [data[i]]: IndexError when [i] is out of range. *)
Definition getitem (data : list string) (i : nat) : result string :=
  match nth_error data i with
  | Some x => Ok x
  | None => Raise IndexError
  end.

(** ** BeautifulSoup: the document tree and the queries the scrapers use *)

Inductive node :=
| NavigableString (s : string)
| Tag (name : string) (attrs : list (string * string)) (contents : list node).

(** All nodes below [n], in document order. *)
Fixpoint descendants (n : node) : list node :=
  match n with
  | NavigableString _ => []
  | Tag _ _ cs => flat_map (fun c => c :: descendants c) cs
  end.

(** [n.text]: the strings below [n], concatenated. *)
Fixpoint get_text (n : node) : string :=
  match n with
  | NavigableString s => s
  | Tag _ _ cs => String.concat "" (map get_text cs)
  end.

Fixpoint attrs_get (k : string) (attrs : list (string * string)) : option string :=
  match attrs with
  | [] => None
  | (k', v) :: rest => if String.eqb k k' then Some v else attrs_get k rest
  end.

Definition has_attrs (want : list (string * string)) (attrs : list (string * string)) : bool :=
  forallb (fun kv => match attrs_get (fst kv) attrs with
                     | Some v => String.eqb v (snd kv)
                     | None => false
                     end) want.

Definition is_tag (name : string) (want : list (string * string)) (n : node) : bool :=
  match n with
  | NavigableString _ => false
  | Tag name' attrs _ => String.eqb name' name && has_attrs want attrs
  end.

(** [n.find_all(name)] *)
Definition find_all (name : string) (n : node) : list node :=
  filter (is_tag name []) (descendants n).

(** [n.find(name, attrs)]: the first match, or None. *)
Definition find (name : string) (want : list (string * string)) (n : node) : option node :=
  hd_error (filter (is_tag name want) (descendants n)).

(** Method calls on the result of an earlier [find], which may be None:
    [o.find(name)] and [o.find_all(name)] raise AttributeError on None. *)
Definition call_find (o : option node) (name : string) : result (option node) :=
  match o with
  | Some n => Ok (find name [] n)
  | None => Raise AttributeError
  end.

Definition call_find_all (o : option node) (name : string) : result (list node) :=
  match o with
  | Some n => Ok (find_all name n)
  | None => Raise AttributeError
  end.

(** ** requests: the response object

    [soup] is the outcome of [BeautifulSoup(response.content,
    'html.parser')]: the document tree, or the exception the constructor
    raises (ParserRejectedMarkup on markup the parser gives up on).  [text]
    is [response.text]. *)

Record Response := mkResponse {
  ok : bool;
  soup : result node;
  text : string
}.

(** [requests.get]: may itself raise (a transport error). *)
Definition Requests := string -> result Response.

(** ** The table scrapers *)

(** [try: body except (AttributeError, KeyError): raise InvalidHTMLError()] *)
Definition except_AttributeError_KeyError {A} (body : result A) : result A :=
  match body with
  | Raise AttributeError => Raise InvalidHTMLError
  | Raise KeyError => Raise InvalidHTMLError
  | r => r
  end.

(** [data = list(map(lambda x: x.text, row.find_all('td')))] *)
Definition row_data (row : node) : list string :=
  map get_text (find_all "td" row).

(** The loop [for row in ...: ...; proxies.add(Proxy(...))]. *)
Fixpoint for_rows (body : list string -> result Proxy) (rows : list node)
    (proxies : set Proxy) : result (set Proxy) :=
  match rows with
  | [] => Ok proxies
  | row :: rest =>
      p <- body (row_data row) ;;
      for_rows body rest (add p proxies)
  end.

(** The part shared by the six table scrapers: everything but the loop
    body. *)
Definition scrape_table (body : list string -> result Proxy)
    (get : Requests) (url : string) : result (set Proxy) :=
  response <- get url ;;
  if negb (ok response) then Raise RequestNotOKError
  else
    except_AttributeError_KeyError
      (soup_ <- soup response ;;
       let table := find "table" [("id", "proxylisttable")] soup_ in
       let proxies := empty_set Proxy in
       tbody <- call_find table "tbody" ;;
       rows <- call_find_all tbody "tr" ;;
       for_rows body rows proxies).

(** Loop body of get_anonymous_proxies, get_free_proxy_list_proxies,
    get_uk_proxies and get_us_proxies, which differ in the source only. *)
Definition row_http_https (src : string) (data : list string) : result Proxy :=
  host <- getitem data 0 ;;
  port <- getitem data 1 ;;
  code <- getitem data 2 ;;
  country <- getitem data 3 ;;
  d4 <- getitem data 4 ;;
  d6 <- getitem data 6 ;;
  let anonymous := in_tuple (lower d4) ["anonymous"; "elite proxy"] in
  let version := if String.eqb (lower d6) "yes" then "https" else "http" in
  Ok (mkProxy (VStr host) (VStr port) (VStr (lower code)) (VStr (lower country))
              (VBool anonymous) (VStr version) (VStr src)).

(** Loop body of get_socks_proxies. *)
Definition row_socks (data : list string) : result Proxy :=
  host <- getitem data 0 ;;
  port <- getitem data 1 ;;
  code <- getitem data 2 ;;
  country <- getitem data 3 ;;
  d4 <- getitem data 4 ;;
  d5 <- getitem data 5 ;;
  let version := lower d4 in
  let anonymous := in_tuple (lower d5) ["anonymous"; "elite proxy"] in
  Ok (mkProxy (VStr host) (VStr port) (VStr (lower code)) (VStr (lower country))
              (VBool anonymous) (VStr version) (VStr "socks-proxy")).

(** Loop body of get_ssl_proxies. *)
Definition row_ssl (data : list string) : result Proxy :=
  host <- getitem data 0 ;;
  port <- getitem data 1 ;;
  code <- getitem data 2 ;;
  country <- getitem data 3 ;;
  d4 <- getitem data 4 ;;
  let anonymous := in_tuple (lower d4) ["anonymous"; "elite proxy"] in
  Ok (mkProxy (VStr host) (VStr port) (VStr (lower code)) (VStr (lower country))
              (VBool anonymous) (VStr "https") (VStr "ssl-proxy")).

Definition get_anonymous_proxies : Requests -> string -> result (set Proxy) :=
  scrape_table (row_http_https "anonymous-proxy").

Definition get_free_proxy_list_proxies : Requests -> string -> result (set Proxy) :=
  scrape_table (row_http_https "free-proxy-list").

Definition get_socks_proxies : Requests -> string -> result (set Proxy) :=
  scrape_table row_socks.

Definition get_ssl_proxies : Requests -> string -> result (set Proxy) :=
  scrape_table row_ssl.

Definition get_uk_proxies : Requests -> string -> result (set Proxy) :=
  scrape_table (row_http_https "uk-proxy").

Definition get_us_proxies : Requests -> string -> result (set Proxy) :=
  scrape_table (row_http_https "us-proxy").

(** ** re: the fragment the proxy-daily scrapers use

    A pattern is a sequence of items; the matcher tries alternatives in
    the order of Python's backtracking engine (a greedy quantifier takes
    as many characters as it can and gives them back one by one), so the
    first match it finds is the match [re] reports. *)

Inductive atom :=
| Chr (c : ascii)   (* a literal character *)
| Whitespace        (* \s *)
| Digit             (* [0-9] *)
| Dot.              (* . under re.S: any character, line breaks too *)

Inductive item :=
| One (a : atom)                   (* a *)
| Repeat (a : atom) (lo hi : nat)  (* a{lo,hi}, greedy *)
| Star (a : atom).                 (* a*, greedy *)

Definition regex := list item.

(** [\s] on a str pattern: the characters [str.isspace] accepts, below
    code point 256. *)
Definition is_space (c : ascii) : bool :=
  let n := nat_of_ascii c in
  (((9 <=? n) && (n <=? 13)) || ((28 <=? n) && (n <=? 32))
   || (n =? 133) || (n =? 160))%nat.

Definition is_digit (c : ascii) : bool :=
  let n := nat_of_ascii c in
  ((48 <=? n) && (n <=? 57))%nat.

Definition atom_matches (a : atom) (c : ascii) : bool :=
  match a with
  | Chr c' => Ascii.eqb c c'
  | Whitespace => is_space c
  | Digit => is_digit c
  | Dot => true
  end.

(** [star c k s]: match [c*] greedily at the head of [s], then the rest of
    the pattern [k]; the result is what is left of [s] after the match. *)
Fixpoint star (c : ascii -> bool) (k : string -> option string) (s : string)
    : option string :=
  match s with
  | String a s' =>
      if c a then
        match star c k s' with
        | Some r => Some r
        | None => k s
        end
      else k s
  | EmptyString => k s
  end.

(** [rep c k lo hi s]: match [c{lo,hi}] greedily, then [k]. *)
Fixpoint rep (c : ascii -> bool) (k : string -> option string) (lo hi : nat)
    (s : string) : option string :=
  let stop := if (lo =? 0)%nat then k s else None in
  match hi with
  | O => stop
  | S hi' =>
      match s with
      | String a s' =>
          if c a then
            match rep c k (pred lo) hi' s' with
            | Some r => Some r
            | None => stop
            end
          else stop
      | EmptyString => stop
      end
  end.

(** [match_items p s]: match [p] at the head of [s]. *)
Fixpoint match_items (p : regex) : string -> option string :=
  match p with
  | [] => fun s => Some s
  | One a :: p' =>
      fun s =>
        match s with
        | String c s' => if atom_matches a c then match_items p' s' else None
        | EmptyString => None
        end
  | Repeat a lo hi :: p' => rep (atom_matches a) (match_items p') lo hi
  | Star a :: p' => star (atom_matches a) (match_items p')
  end.

(** The first [n] characters of [s]. *)
Definition take (n : nat) (s : string) : string := substring 0 n s.

(** [re.findall(p, s)] for a pattern whose only group, if any, spans the
    whole pattern: the matched substrings, left to right, not overlapping.
    [skip] counts the characters of the match just reported that are still
    ahead.  (None of the patterns below matches the empty string.) *)
Fixpoint findall_from (p : regex) (skip : nat) (s : string) : list string :=
  match s with
  | EmptyString => []
  | String _ s' =>
      match skip with
      | S k => findall_from p k s'
      | O =>
          match match_items p s with
          | Some r =>
              let m := (String.length s - String.length r)%nat in
              take m s :: findall_from p (pred m) s'
          | None => findall_from p 0 s'
          end
      end
  end.

Definition findall (p : regex) (s : string) : list string :=
  findall_from p 0 s.

(** A literal word, character by character. *)
Fixpoint word (s : string) : regex :=
  match s with
  | EmptyString => []
  | String c s' => One (Chr c) :: word s'
  end.

(** The marker phrases of the three patterns, as written in the source
    (under re.X the white space of the pattern text is not part of it). *)
Definition http_marker : regex :=
  (word "Free" ++ [One Whitespace] ++ word "Http/Https" ++ [One Whitespace]
   ++ word "Proxy" ++ [One Whitespace] ++ word "List")%list.

Definition socks4_marker : regex :=
  (word "Free" ++ [One Whitespace] ++ word "Socks4" ++ [One Whitespace]
   ++ word "Proxy" ++ [One Whitespace] ++ word "List")%list.

Definition socks5_marker : regex :=
  (word "Free" ++ [One Whitespace] ++ word "Socks5" ++ [One Whitespace]
   ++ word "Proxy" ++ [One Whitespace] ++ word "List")%list.

(** The pattern of _get_proxy_daily_proxies_parse_inner. *)
Definition inner_pattern : regex :=
  [Repeat Digit 1 3; One (Chr "."); Repeat Digit 1 3; One (Chr ".");
   Repeat Digit 1 3; One (Chr "."); Repeat Digit 1 3; One (Chr ":");
   Repeat Digit 1 5].

Definition http_pattern : regex := (http_marker ++ [Star Dot] ++ socks4_marker)%list.
Definition socks4_pattern : regex := (socks4_marker ++ [Star Dot] ++ socks5_marker)%list.
Definition socks5_pattern : regex := (socks5_marker ++ [Star Dot])%list.

(** ** The proxy-daily scrapers *)

(** The call of [Proxy] on the unpacked [parts] followed by None, None,
    None, type and source: the named tuple takes seven arguments, so
    [parts] must have two. *)
Definition Proxy_of_parts (parts : list string) (type source : string)
    : result Proxy :=
  match parts with
  | [h; p] => Ok (mkProxy (VStr h) (VStr p) VNone VNone VNone (VStr type) (VStr source))
  | _ => Raise TypeError
  end.

(** The set comprehension [{Proxy(...) for i in inner_reg}]. *)
Fixpoint proxies_of (inner_reg : list string) (type source : string)
    (acc : set Proxy) : result (set Proxy) :=
  match inner_reg with
  | [] => Ok acc
  | i :: rest =>
      p <- Proxy_of_parts (split ":" i) type source ;;
      proxies_of rest type source (add p acc)
  end.

Definition _get_proxy_daily_proxies_parse_inner (text type source : string)
    : result (set Proxy) :=
  let inner_reg := findall inner_pattern text in
  match inner_reg with
  | [] => Raise InvalidHTMLError
  | _ => proxies_of inner_reg type source (empty_set Proxy)
  end.

(** The part shared by the three proxy-daily scrapers: everything but the
    pattern and the two labels. *)
Definition scrape_region (pattern : regex) (type source : string)
    (get : Requests) (url : string) : result (set Proxy) :=
  response <- get url ;;
  if negb (ok response) then Raise RequestNotOKError
  else
    let outer_reg := findall pattern (text response) in
    match outer_reg with
    | [] => Raise InvalidHTMLError
    | region :: _ => _get_proxy_daily_proxies_parse_inner region type source
    end.

Definition get_proxy_daily_http_proxies : Requests -> string -> result (set Proxy) :=
  scrape_region http_pattern "http" "proxy-daily-http".

Definition get_proxy_daily_socks4_proxies : Requests -> string -> result (set Proxy) :=
  scrape_region socks4_pattern "socks4" "proxy-daily-socks4".

Definition get_proxy_daily_socks5_proxies : Requests -> string -> result (set Proxy) :=
  scrape_region socks5_pattern "socks5" "proxy-daily-socks5".

(** ** The source table and the protocol index *)

Definition Scraper := Requests -> string -> result (set Proxy).

Definition RESOURCE_MAP : list (string * (string * Scraper)) :=
  [ ("anonymous-proxy", ("https://free-proxy-list.net/anonymous-proxy.html", get_anonymous_proxies));
    ("free-proxy-list", ("http://www.free-proxy-list.net", get_free_proxy_list_proxies));
    ("proxy-daily-http", ("http://www.proxy-daily.com", get_proxy_daily_http_proxies));
    ("proxy-daily-socks4", ("http://www.proxy-daily.com", get_proxy_daily_socks4_proxies));
    ("proxy-daily-socks5", ("http://www.proxy-daily.com", get_proxy_daily_socks5_proxies));
    ("socks-proxy", ("https://www.socks-proxy.net", get_socks_proxies));
    ("ssl-proxy", ("https://www.sslproxies.org/", get_ssl_proxies));
    ("uk-proxy", ("https://free-proxy-list.net/uk-proxy.html", get_uk_proxies));
    ("us-proxy", ("https://www.us-proxy.org", get_us_proxies)) ].

Definition RESOURCE_TYPE_MAP : list (string * list string) :=
  [ ("http", ["us-proxy"; "uk-proxy"; "free-proxy-list"; "proxy-daily-http"; "anonymous-proxy"]);
    ("https", ["us-proxy"; "uk-proxy"; "free-proxy-list"; "ssl-proxy"; "anonymous-proxy"]);
    ("socks4", ["socks-proxy"; "proxy-daily-socks4"]);
    ("socks5", ["socks-proxy"; "proxy-daily-socks5"]) ].

(** The six scrapers that read an HTML table, and the three that read a
    region of text between marker phrases. *)
Definition table_scrapers : list Scraper :=
  [get_anonymous_proxies; get_free_proxy_list_proxies; get_socks_proxies;
   get_ssl_proxies; get_uk_proxies; get_us_proxies].

Definition region_scrapers : list Scraper :=
  [get_proxy_daily_http_proxies; get_proxy_daily_socks4_proxies;
   get_proxy_daily_socks5_proxies].

(** ** ProxyResource

    [_func] performs network input and output; the outcome of its [n]-th
    invocation (counted over the whole run) is [_func self url n].
    [_lock] is the [threading.Lock]: [true] while some thread holds it.
    [_refresh_interval] and [_last_refresh_time] are floats: a reading of
    [time.time()] is one, and the sum of the two is the rounded sum of
    float addition.  (The [0] that [__init__] assigns and an interval
    given as an int that a float holds exactly behave as the floats of the
    same value: Python converts the int before it adds and compares.) *)

Record ProxyResource := mkProxyResource {
  _url : string;
  _func : string -> nat -> result (set Proxy);
  _refresh_interval : float;
  _lock : bool;
  _last_refresh_time : float
}.

(** [ProxyResource.__init__] *)
Definition __init__ (url : string) (func : string -> nat -> result (set Proxy))
    (refresh_interval : float) : ProxyResource :=
  {| _url := url;
     _func := func;
     _refresh_interval := refresh_interval;
     _lock := false;
     _last_refresh_time := 0 |}.

(** A scraper of [RESOURCE_MAP] as the [func] of a resource, over a network
    whose answer to the [n]-th invocation is [net n]. *)
Definition func_of (f : Scraper) (net : nat -> Requests)
    : string -> nat -> result (set Proxy) :=
  fun url n => f (net n) url.

(** What lies outside the resource: the clock ([now k] is the [k]-th
    reading of [time.time()], [ticks] the number of readings taken) and
    the urls the scrapers were invoked on, oldest first. *)
Record World := mkWorld {
  now : nat -> float;
  ticks : nat;
  fetched : list string
}.

(** *** Sequential execution: state and exceptions

    A method body runs on the resource and the world.  It returns, raises,
    or blocks for ever on a lock that is held. *)

Inductive completion (A : Type) :=
| Return (a : A)
| Throw (e : exn)
| Blocked.
Arguments Return {A} a.
Arguments Throw {A} e.
Arguments Blocked {A}.

Definition State := (ProxyResource * World)%type.

Definition M (A : Type) := State -> completion A * State.

Definition ret {A} (a : A) : M A := fun st => (Return a, st).

Definition bindM {A B} (m : M A) (k : A -> M B) : M B :=
  fun st =>
    match m st with
    | (Return a, st') => k a st'
    | (Throw e, st') => (Throw e, st')
    | (Blocked, st') => (Blocked, st')
    end.

Notation "x <~ m ;; k" := (bindM m (fun x => k))
  (at level 61, m at next level, right associativity).

(** [self] *)
Definition self_ : M ProxyResource := fun st => (Return (fst st), st).

(** [time.time()] *)
Definition time_time : M float :=
  fun st =>
    let w := snd st in
    (Return (now w (ticks w)),
     (fst st, {| now := now w; ticks := S (ticks w); fetched := fetched w |})).

(** [self._func(self._url)] *)
Definition call_func : M (set Proxy) :=
  fun st =>
    let self := fst st in
    let w := snd st in
    let st' := (self, {| now := now w; ticks := ticks w;
                         fetched := (fetched w ++ [_url self])%list |}) in
    match _func self (_url self) (List.length (fetched w)) with
    | Ok proxies => (Return proxies, st')
    | Raise e => (Throw e, st')
    end.

(** [self._last_refresh_time = t] *)
Definition set_last_refresh_time (t : float) : M unit :=
  fun st =>
    let self := fst st in
    (Return tt,
     ({| _url := _url self; _func := _func self;
         _refresh_interval := _refresh_interval self;
         _lock := _lock self; _last_refresh_time := t |}, snd st)).

Definition set_lock (b : bool) (st : State) : State :=
  let self := fst st in
  ({| _url := _url self; _func := _func self;
      _refresh_interval := _refresh_interval self;
      _lock := b; _last_refresh_time := _last_refresh_time self |}, snd st).

(** [with self._lock: body]: acquire, run the body, release on the way out,
    also when the body raises. *)
Definition with_lock {A} (body : M A) : M A :=
  fun st =>
    if _lock (fst st) then (Blocked, st)
    else
      match body (set_lock true st) with
      | (Blocked, st') => (Blocked, st')
      | (c, st') => (c, set_lock false st')
      end.

(** [try: body except (InvalidHTMLError, RequestNotOKError): handler] *)
Definition try_except {A} (body : M A) (handler : M A) : M A :=
  fun st =>
    match body st with
    | (Throw InvalidHTMLError, st') => handler st'
    | (Throw RequestNotOKError, st') => handler st'
    | r => r
    end.

(** [ProxyResource.refresh].  The guards evaluate [time.time()] only when
    [force] is false ([and] and [or] short-circuit); [a > b] on floats is
    [b <? a], and both comparisons are false on a NaN.  The body of the
    [with] yields [Some v] where the source returns [v] from inside it and
    [None] where control leaves it and reaches the last line. *)
Definition refresh (force : bool) : M (bool * option (set Proxy)) :=
  early <~ (if negb force then
              self <~ self_ ;;
              t <~ time_time ;;
              ret (t <? _last_refresh_time self + _refresh_interval self)%float
            else ret false) ;;
  if (early : bool) then ret (false, None)
  else
    r <~ with_lock
           (go <~ (if force then ret true
                   else
                     self <~ self_ ;;
                     t <~ time_time ;;
                     ret (_last_refresh_time self + _refresh_interval self <=? t)%float) ;;
            if (go : bool) then
              try_except
                (proxies <~ call_func ;;
                 t <~ time_time ;;
                 _ <~ set_last_refresh_time t ;;
                 ret (Some (true, Some proxies)))
                (ret None)
            else ret None) ;;
    match r with
    | Some v => ret v
    | None => ret (false, None)
    end.

(** *** Concurrent execution: threads interleaved at atomic steps

    Each thread runs one call of [refresh] on the resource [target].  A
    thread is at one of the program points below; a step takes it to the
    next one.  [Fetching n] is the [n]-th invocation of a scraper in
    flight: the step that starts it and the step that completes it are
    distinct, so other threads can run in between; and the invocation need
    not complete at all ([requests.get] is called without a timeout). *)

Inductive pc :=
| Guard                        (* line 48: the guard outside the lock *)
| Acquire                      (* line 51: at the lock *)
| Recheck                      (* line 53: the guard under the lock *)
| Fetching (n : nat)           (* line 56: self._func(self._url) running *)
| Stamp (proxies : set Proxy)  (* line 57: the scraper has returned *)
| Leave (c : completion (bool * option (set Proxy)))
                               (* on the way out of the with block *)
| Finished (c : completion (bool * option (set Proxy))).
                               (* the call has returned or raised *)

Record thread := mkThread {
  target : nat;
  forced : bool;
  at_ : pc
}.

(** The resources (by index), the threads (by index) and the clock with
    the number of readings taken.  [stalled n] says that the [n]-th
    invocation of a scraper never returns.  Two logs, oldest entry first:
    [invoked] has the resource of every invocation of a scraper, and
    [stamped] has, for every assignment to [_last_refresh_time], the
    resource and the index of the clock reading assigned. *)
Record config := mkConfig {
  resources : nat -> ProxyResource;
  threads : nat -> thread;
  clock : nat -> float;
  reads : nat;
  stalled : nat -> bool;
  invoked : list nat;
  stamped : list (nat * nat)
}.

Definition upd {A} (f : nat -> A) (i : nat) (x : A) : nat -> A :=
  fun j => if (j =? i)%nat then x else f j.

Definition goto (i : nat) (p : pc) (c : config) : config :=
  let th := threads c i in
  {| resources := resources c;
     threads := upd (threads c) i
                    {| target := target th; forced := forced th; at_ := p |};
     clock := clock c; reads := reads c; stalled := stalled c;
     invoked := invoked c; stamped := stamped c |}.

(** One reading of [time.time()] has been taken. *)
Definition tick (c : config) : config :=
  {| resources := resources c; threads := threads c;
     clock := clock c; reads := S (reads c); stalled := stalled c;
     invoked := invoked c; stamped := stamped c |}.

Definition put_resource (r : nat) (self : ProxyResource) (c : config) : config :=
  {| resources := upd (resources c) r self; threads := threads c;
     clock := clock c; reads := reads c; stalled := stalled c;
     invoked := invoked c; stamped := stamped c |}.

Definition with_lock_bit (b : bool) (self : ProxyResource) : ProxyResource :=
  {| _url := _url self; _func := _func self;
     _refresh_interval := _refresh_interval self;
     _lock := b; _last_refresh_time := _last_refresh_time self |}.

Definition with_last_refresh_time (t : float) (self : ProxyResource) : ProxyResource :=
  {| _url := _url self; _func := _func self;
     _refresh_interval := _refresh_interval self;
     _lock := _lock self; _last_refresh_time := t |}.

(** The scraper of resource [r] is invoked: the invocation is logged and
    thread [i] waits for its outcome. *)
Definition start_fetch (i r : nat) (c : config) : config :=
  goto i (Fetching (List.length (invoked c)))
       {| resources := resources c; threads := threads c;
          clock := clock c; reads := reads c; stalled := stalled c;
          invoked := (invoked c ++ [r])%list; stamped := stamped c |}.

(** [self._last_refresh_time = time.time()] on resource [r]: the clock is
    read, the reading is assigned, and the assignment is logged. *)
Definition stamp (r : nat) (c : config) : config :=
  {| resources := upd (resources c) r
                      (with_last_refresh_time (clock c (reads c)) (resources c r));
     threads := threads c;
     clock := clock c; reads := S (reads c); stalled := stalled c;
     invoked := invoked c; stamped := (stamped c ++ [(r, reads c)])%list |}.

(** One step of thread [i]; None when the thread cannot move: it waits for
    a lock that is held, its scraper does not return, or its call is
    over. *)
Definition step_thread (i : nat) (c : config) : option config :=
  let th := threads c i in
  let r := target th in
  let self := resources c r in
  match at_ th with
  | Guard =>
      if forced th then Some (goto i Acquire c)
      else
        let t := clock c (reads c) in
        if (t <? _last_refresh_time self + _refresh_interval self)%float
        then Some (goto i (Finished (Return (false, None))) (tick c))
        else Some (goto i Acquire (tick c))
  | Acquire =>
      if _lock self then None
      else Some (goto i Recheck (put_resource r (with_lock_bit true self) c))
  | Recheck =>
      if forced th then Some (start_fetch i r c)
      else
        let t := clock c (reads c) in
        if (_last_refresh_time self + _refresh_interval self <=? t)%float
        then Some (start_fetch i r (tick c))
        else Some (goto i (Leave (Return (false, None))) (tick c))
  | Fetching n =>
      if stalled c n then None
      else
        match _func self (_url self) n with
        | Ok proxies => Some (goto i (Stamp proxies) c)
        | Raise InvalidHTMLError => Some (goto i (Leave (Return (false, None))) c)
        | Raise RequestNotOKError => Some (goto i (Leave (Return (false, None))) c)
        | Raise e => Some (goto i (Leave (Throw e)) c)
        end
  | Stamp proxies =>
      Some (goto i (Leave (Return (true, Some proxies))) (stamp r c))
  | Leave v =>
      Some (goto i (Finished v) (put_resource r (with_lock_bit false self) c))
  | Finished _ => None
  end.

(** A schedule names the thread that moves at each step. *)
Fixpoint run (sched : list nat) (c : config) : option config :=
  match sched with
  | [] => Some c
  | i :: rest =>
      match step_thread i c with
      | Some c' => run rest c'
      | None => None
      end
  end.

(** The program points inside the [with] block. *)
Definition holding (p : pc) : bool :=
  match p with
  | Recheck | Fetching _ | Stamp _ | Leave _ => true
  | _ => false
  end.

(** Thread [i] holds the lock of its resource. *)
Definition holds (c : config) (i : nat) : bool :=
  holding (at_ (threads c i)).

(** Thread [i] has an invocation of its resource's scraper in flight. *)
Definition in_flight (c : config) (i : nat) : bool :=
  match at_ (threads c i) with
  | Fetching _ => true
  | _ => false
  end.

(** The number of invocations of the scraper of resource [r] so far. *)
Definition fetches (r : nat) (c : config) : nat :=
  count_occ Nat.eq_dec (invoked c) r.

(** Every call is about to start, no lock is held, and the logs are
    empty. *)
Definition initial (c : config) : Prop :=
  (forall i, at_ (threads c i) = Guard)
  /\ (forall r, _lock (resources c r) = false)
  /\ invoked c = []
  /\ stamped c = [].

(** A configuration to start from: the given resources with their locks
    free, and each thread at the entry of its call. *)
Definition start (rs : nat -> ProxyResource) (calls : nat -> nat * bool)
    (clk : nat -> float) (stall : nat -> bool) : config :=
  {| resources := fun r => with_lock_bit false (rs r);
     threads := fun i => {| target := fst (calls i); forced := snd (calls i);
                            at_ := Guard |};
     clock := clk; reads := 0; stalled := stall;
     invoked := []; stamped := [] |}.

(** ** Vocabulary of the statements *)

(** The six table scrapers by name, each with its loop body and the column
    its loop body reads the anonymity label from. *)
Inductive table_source :=
| anonymous_proxy
| free_proxy_list
| socks_proxy
| ssl_proxy
| uk_proxy
| us_proxy.

Definition table_scraper (t : table_source) : Scraper :=
  match t with
  | anonymous_proxy => get_anonymous_proxies
  | free_proxy_list => get_free_proxy_list_proxies
  | socks_proxy => get_socks_proxies
  | ssl_proxy => get_ssl_proxies
  | uk_proxy => get_uk_proxies
  | us_proxy => get_us_proxies
  end.

Definition table_row (t : table_source) : list string -> result Proxy :=
  match t with
  | anonymous_proxy => row_http_https "anonymous-proxy"
  | free_proxy_list => row_http_https "free-proxy-list"
  | socks_proxy => row_socks
  | ssl_proxy => row_ssl
  | uk_proxy => row_http_https "uk-proxy"
  | us_proxy => row_http_https "us-proxy"
  end.


(** The rows the loop of a table scraper runs over. *)
Definition table_rows (response : Response) : list node :=
  match soup response with
  | Ok soup_ =>
      match find "table" [("id", "proxylisttable")] soup_ with
      | Some table =>
          match find "tbody" [] table with
          | Some tbody => find_all "tr" tbody
          | None => []
          end
      | None => []
      end
  | Raise _ => []
  end.



(** A page whose table has the expected id and a body with one row of a
    single cell. *)
Definition short_row_page : Response :=
  {| ok := true;
     soup := Ok (Tag "[document]" []
                   [Tag "table" [("id", "proxylisttable")]
                      [Tag "tbody" []
                         [Tag "tr" [] [Tag "td" [] [NavigableString "1.2.3.4"]]]]]);
     text := "<table id='proxylisttable'><tbody><tr><td>1.2.3.4</td></tr></tbody></table>" |}.

(** A page without the expected table. *)
Definition no_table_page : Response :=
  {| ok := true;
     soup := Ok (Tag "[document]" [] [Tag "p" [] [NavigableString "maintenance"]]);
     text := "<p>maintenance</p>" |}.

(** A page of the ssl layout whose country begins with the capital A with
    a ring above, code point 197; its lower case is code point 229. *)
Definition aland_page : Response :=
  {| ok := true;
     soup := Ok (Tag "[document]" []
                   [Tag "table" [("id", "proxylisttable")]
                      [Tag "tbody" []
                         [Tag "tr" []
                            [Tag "td" [] [NavigableString "1.2.3.4"];
                             Tag "td" [] [NavigableString "443"];
                             Tag "td" [] [NavigableString "AX"];
                             Tag "td" []
                               [NavigableString (String "197" "land Islands")];
                             Tag "td" [] [NavigableString "Elite Proxy"]]]]]);
     text := "" |}.

Definition aland_record : Proxy :=
  mkProxy (VStr "1.2.3.4") (VStr "443") (VStr "ax")
          (VStr (String "229" "land islands"))
          (VBool true) (VStr "https") (VStr "ssl-proxy").

(** A page whose table has a body without rows. *)
Definition empty_table_page : Response :=
  {| ok := true;
     soup := Ok (Tag "[document]" []
                   [Tag "table" [("id", "proxylisttable")] [Tag "tbody" [] []]]);
     text := "<table id='proxylisttable'><tbody></tbody></table>" |}.

(** A page whose markup the parser rejects. *)
Definition rejected_page : Response :=
  {| ok := true; soup := Raise ParserRejectedMarkup; text := "<![if" |}.

(** A page of the socks layout whose version cell reads FTP. *)
Definition ftp_page : Response :=
  {| ok := true;
     soup := Ok (Tag "[document]" []
                   [Tag "table" [("id", "proxylisttable")]
                      [Tag "tbody" []
                         [Tag "tr" []
                            [Tag "td" [] [NavigableString "1.2.3.4"];
                             Tag "td" [] [NavigableString "1080"];
                             Tag "td" [] [NavigableString "US"];
                             Tag "td" [] [NavigableString "United States"];
                             Tag "td" [] [NavigableString "FTP"];
                             Tag "td" [] [NavigableString "Anonymous"];
                             Tag "td" [] [NavigableString "Yes"];
                             Tag "td" [] [NavigableString "1 minute ago"]]]]]);
     text := "<table id='proxylisttable'><tbody><tr><td>1.2.3.4</td><td>1080</td><td>US</td><td>United States</td><td>FTP</td><td>Anonymous</td><td>Yes</td><td>1 minute ago</td></tr></tbody></table>" |}.

Definition ftp_record : Proxy :=
  mkProxy (VStr "1.2.3.4") (VStr "1080") (VStr "us") (VStr "united states")
          (VBool true) (VStr "ftp") (VStr "socks-proxy").

(** The network that answers every request with [response]. *)
Definition serving (response : Response) : Requests := fun _ => Ok response.

(** [x] is a text of the marker [m]: the pattern matches all of it. *)
Definition is_marker (m : regex) (x : string) : Prop :=
  match_items m x = Some "".

(** A text of [m1] and, after it, a text of [m2] occur in [s]. *)
Definition in_order (m1 m2 : regex) (s : string) : Prop :=
  exists pre x1 mid x2 post,
    s = pre ++ x1 ++ mid ++ x2 ++ post /\ is_marker m1 x1 /\ is_marker m2 x2.

(** A text of [m] occurs in [s]. *)
Definition occurs (m : regex) (s : string) : Prop :=
  exists pre x post, s = pre ++ x ++ post /\ is_marker m x.

(** Every item of the pattern matches one character. *)
Definition simple (m : regex) : Prop :=
  Forall (fun i => exists a, i = One a) m.

Fixpoint all_chars (f : ascii -> bool) (s : string) : bool :=
  match s with
  | EmptyString => true
  | String c s' => f c && all_chars f s'
  end.

Definition not_digit (c : ascii) : bool := negb (is_digit c).

(** An OK response whose text is [t]. *)
Definition text_page (t : string) : Response :=
  {| ok := true; soup := Ok (Tag "[document]" [] [NavigableString t]); text := t |}.

(** The document of the example: the two headings around one address,
    with [gap1] and [gap2] in between. *)
Definition example_doc (gap1 gap2 : string) : string :=
  "Free Http/Https Proxy List" ++ gap1 ++ "1.2.3.4:8080" ++ gap2
  ++ "Free Socks4 Proxy List".

Definition example_record : Proxy :=
  mkProxy (VStr "1.2.3.4") (VStr "8080") VNone VNone VNone
          (VStr "http") (VStr "proxy-daily-http").

(** The record the example would give were the port a number. *)
Definition example_record_int_port : Proxy :=
  mkProxy (VStr "1.2.3.4") (VInt 8080) VNone VNone VNone
          (VStr "http") (VStr "proxy-daily-http").

(** A document with the socks5 heading and nothing to close its region. *)
Definition socks5_doc : string :=
  "Free Socks5 Proxy List 9.9.9.9:1080 and the rest of the page".

Definition socks5_record : Proxy :=
  mkProxy (VStr "9.9.9.9") (VStr "1080") VNone VNone VNone
          (VStr "socks5") (VStr "proxy-daily-socks5").

(** The heading "Free <w> Proxy List" with [a], [b] and [c] between its
    words. *)
Definition phrase (w : string) (a b c : ascii) : string :=
  "Free" ++ String a (w ++ String b ("Proxy" ++ String c "List")).

(** Thread [i] is past the re-check and has not yet stamped the resource:
    its fetch is in flight or has just returned. *)
Definition busy (c : config) (i : nat) : Prop :=
  (exists n, at_ (threads c i) = Fetching n)
  \/ (exists proxies, at_ (threads c i) = Stamp proxies).

(** At most one thread holds the lock of a resource, and the lock is
    taken while a thread holds it. *)
Definition mutex (c : config) : Prop :=
  (forall i, holds c i = true ->
             _lock (resources c (target (threads c i))) = true)
  /\ (forall i j, holds c i = true -> holds c j = true ->
                  target (threads c i) = target (threads c j) -> i = j).

(** The setting of the count: the calls on resource [r] are unforced and
    the scraper of [r] returns a set whenever it is invoked. *)
Definition quiet (r : nat) (c : config) : Prop :=
  (forall i, target (threads c i) = r -> forced (threads c i) = false)
  /\ (forall n, exists proxies,
        _func (resources c r) (_url (resources c r)) n = Ok proxies).

(** Every reading the clock gives after a reading that was assigned to
    [_last_refresh_time] of [r] is less than that reading plus the refresh
    interval, the sum as float addition rounds it.  Nothing is asked of
    the readings before the assignment. *)
Definition within_window (r : nat) (c : config) : Prop :=
  forall k k',
    In (r, k) (stamped c) -> k < k' ->
    (clock c k' <? clock c k + _refresh_interval (resources c r))%float = true.

(** Resource [r] carries a stamp: its [_last_refresh_time] is a reading of
    the clock that was assigned to it. *)
Definition carries_stamp (r : nat) (c : config) : Prop :=
  exists k, In (r, k) (stamped c) /\ k < reads c
            /\ _last_refresh_time (resources c r) = clock c k.

(** Once the scraper of [r] has been invoked, either the invoking thread
    is still busy or the resource carries a stamp. *)
Definition fetched_once (r : nat) (c : config) : Prop :=
  fetches r c <= 1
  /\ (fetches r c = 1 ->
      (exists i, target (threads c i) = r /\ busy c i) \/ carries_stamp r c).

(** Thread [i] can take a step. *)
Definition can_move (c : config) (i : nat) : Prop :=
  exists c', step_thread i c = Some c'.

(** The readings of a clock given as a list, and [rest] for ever after. *)
Definition readings (l : list float) (rest : float) : nat -> float :=
  fun k => nth k l rest.

Definition never : nat -> bool := fun _ => false.

(** Two callers of the same resource, outside its window, whose scraper
    fails. *)
Definition failing_func : string -> nat -> result (set Proxy) :=
  fun _ _ => Raise RequestNotOKError.

Definition two_callers_failing : config :=
  start (fun _ => __init__ "http://www.proxy-daily.com" failing_func 60)
        (fun _ => (0, false)) (fun _ => 1000%float) never.

(** Two callers of the same resource, outside its window, whose scraper
    returns.  The fetch takes long: the clock reads 1000, 1001 and 1002
    before it and 1100 and 1101 after it. *)
Definition returning_func : string -> nat -> result (set Proxy) :=
  fun _ _ => Ok (empty_set Proxy).

Definition two_callers : config :=
  start (fun _ => __init__ "http://www.proxy-daily.com" returning_func 60)
        (fun _ => (0, false)) (readings [1000; 1001; 1002; 1100] 1101)%float
        never.

(** The same two callers with a scraper whose first invocation never
    returns. *)
Definition two_callers_stalled : config :=
  start (fun _ => __init__ "http://www.proxy-daily.com" returning_func 60)
        (fun _ => (0, false)) (fun _ => 1000%float) (fun n => (n =? 0)%nat).

(** Thread [i] calls on resource [i]. *)
Definition one_caller_each : config :=
  start (fun _ => __init__ "http://www.proxy-daily.com" returning_func 60)
        (fun i => (i, false)) (fun _ => 1000%float) never.

(** A resource as [__init__] makes it, with a scraper that returns, and a
    world whose clock starts at 1000 and advances by one at each reading. *)
Definition sample_resource : ProxyResource :=
  __init__ "http://www.proxy-daily.com" returning_func 60.

Definition failing_resource : ProxyResource :=
  __init__ "http://www.proxy-daily.com" failing_func 60.

Definition sample_world : World :=
  {| now := readings [1000; 1001; 1002; 1003; 1004; 1005]%float 1006%float;
     ticks := 0; fetched := [] |}.

(** A resource with an interval of a tenth of a second and a world in
    which the first call stamps it with 1700000000.25 and the second call
    reads 1700000000.35.  (Neither 0.1 nor 1700000000.35 is a float; the
    literals stand for the floats nearest to them, as they do in Python.) *)
Definition boundary_resource : ProxyResource :=
  __init__ "http://www.proxy-daily.com" returning_func 0.1.

Definition boundary_world : World :=
  {| now := readings [1700000000; 1700000000; 1700000000.25]%float
                     1700000000.35%float;
     ticks := 0; fetched := [] |}.

(** [d.get(k)] on a dict written as its list of items. *)
Fixpoint dict_get {A} (k : string) (d : list (string * A)) : option A :=
  match d with
  | [] => None
  | (k', v) :: rest => if String.eqb k k' then Some v else dict_get k rest
  end.

(** The source a table scraper writes into its records. *)
Definition table_source_id (t : table_source) : string :=
  match t with
  | anonymous_proxy => "anonymous-proxy"
  | free_proxy_list => "free-proxy-list"
  | socks_proxy => "socks-proxy"
  | ssl_proxy => "ssl-proxy"
  | uk_proxy => "uk-proxy"
  | us_proxy => "us-proxy"
  end.

(** The number of cells the loop body of a table scraper reads: one more
    than the largest index it uses. *)
Definition cells_read (t : table_source) : nat :=
  match t with
  | socks_proxy => 6
  | ssl_proxy => 5
  | _ => 7
  end.

(** The tbody of the table the scrapers look for, if both are there. *)
Definition table_body (response : Response) : option node :=
  match soup response with
  | Ok soup_ =>
      match find "table" [("id", "proxylisttable")] soup_ with
      | Some table => find "tbody" [] table
      | None => None
      end
  | Raise _ => None
  end.

(** [c.isupper()] for a code point below 256. *)
Definition is_upper (c : ascii) : bool :=
  let n := nat_of_ascii c in
  (((65 <=? n) && (n <=? 90)) || ((192 <=? n) && (n <=? 214))
   || ((216 <=? n) && (n <=? 222)))%nat.

(** No upper-case letter occurs in [s]. *)
Definition no_upper (s : string) : bool :=
  all_chars (fun c => negb (is_upper c)) s.

(** [s] consists of digits, between [lo] and [hi] of them. *)
Definition digits (lo hi : nat) (s : string) : Prop :=
  all_chars is_digit s = true /\ lo <= String.length s <= hi.

(** The example document with its address written twice. *)
Definition repeated_doc : string :=
  "Free Http/Https Proxy List 1.2.3.4:8080 1.2.3.4:8080 Free Socks4 Proxy List".

(** The host of an address: four groups of digits with dots between. *)
Definition dotted (a b c d : string) : string :=
  a ++ "." ++ b ++ "." ++ c ++ "." ++ d.

Definition not_colon (c : ascii) : bool := negb (Ascii.eqb c ":").

(** The records made of addresses. *)
Definition address_record (type_ source_ : string) (p : Proxy) : Prop :=
  exists a b c d q,
    digits 1 3 a /\ digits 1 3 b /\ digits 1 3 c /\ digits 1 3 d /\ digits 1 5 q
    /\ p = mkProxy (VStr (dotted a b c d)) (VStr q) VNone VNone VNone
                   (VStr type_) (VStr source_).

(** Every lock that is taken has a thread inside the [with] block of its
    resource. *)
Definition owned (c : config) : Prop :=
  forall r, _lock (resources c r) = true ->
            exists j, target (threads c j) = r /\ holds c j = true.


(** * Properties *)

(** ** Comparisons of floats *)

Lemma SFcompare_antisym (x y : spec_float) (c : comparison) :
  SFcompare x y = Some c -> SFcompare y x = Some (CompOpp c).
Proof.
  destruct x as [sx | sx | | sx mx ex], y as [sy | sy | | sy my ey]; cbn;
    try discriminate;
    try (destruct sx; intros H; inversion H; reflexivity);
    try (destruct sy; intros H; inversion H; reflexivity);
    try (destruct sx, sy; intros H; inversion H; reflexivity).
  destruct sx, sy; intros H; inversion H; clear H; try reflexivity;
    rewrite (Z.compare_antisym ex ey);
    destruct (ex ?= ey)%Z; cbn; try reflexivity;
    rewrite !Pos.compare_cont_spec; cbn;
    rewrite (Pos.compare_antisym mx my);
    destruct (mx ?= my)%positive; reflexivity.
Qed.

(** [a < b] excludes [b <= a], and [a <= b] excludes [b < a]. *)
Lemma float_lt_not_le (a b : float) :
  (a <? b)%float = true -> (b <=? a)%float = false.
Proof.
  rewrite ltb_spec, leb_spec. unfold SFltb, SFleb.
  destruct (SFcompare (Prim2SF a) (Prim2SF b)) as [c |] eqn:E; [| discriminate].
  rewrite (SFcompare_antisym _ _ _ E). destruct c; cbn; congruence.
Qed.

Lemma float_le_not_lt (a b : float) :
  (a <=? b)%float = true -> (b <? a)%float = false.
Proof.
  intros H. destruct (b <? a)%float eqn:E; [| reflexivity].
  apply float_lt_not_le in E. congruence.
Qed.

Lemma SFcompare_zero_add_r (n x : spec_float) :
  SFcompare n (SF64add (S754_zero false) x) = SFcompare n x.
Proof.
  unfold SF64add, SFadd.
  destruct x as [[] | [] | | sx mx ex]; destruct n as [[] | [] | | sn mn en];
    reflexivity.
Qed.

Lemma SFcompare_zero_add_l (n x : spec_float) :
  SFcompare (SF64add (S754_zero false) x) n = SFcompare x n.
Proof.
  unfold SF64add, SFadd.
  destruct x as [[] | [] | | sx mx ex]; destruct n as [[] | [] | | sn mn en];
    reflexivity.
Qed.

(** The sum [0 + x] compares as [x] does. *)
Lemma zero_add_ltb (n x : float) : (n <? 0 + x)%float = (n <? x)%float.
Proof.
  rewrite !ltb_spec, add_spec. unfold SFltb.
  change (Prim2SF 0) with (S754_zero false).
  now rewrite SFcompare_zero_add_r.
Qed.

Lemma zero_add_leb (n x : float) : (0 + x <=? n)%float = (x <=? n)%float.
Proof.
  rewrite !leb_spec, add_spec. unfold SFleb.
  change (Prim2SF 0) with (S754_zero false).
  now rewrite SFcompare_zero_add_l.
Qed.

(** ** refresh, sequentially *)

Ltac unfold_refresh :=
  unfold refresh, bindM, with_lock, try_except, self_, time_time, call_func,
    set_last_refresh_time, set_lock, ret; cbn.

(** The guard outside the lock ends an unforced call that comes too soon;
    the call takes one reading of the clock and changes nothing else. *)
Lemma refresh_too_soon (self : ProxyResource) (w : World) :
  (now w (ticks w) <? _last_refresh_time self + _refresh_interval self)%float
  = true ->
  refresh false (self, w)
  = (Return (false, None),
     (self, {| now := now w; ticks := S (ticks w); fetched := fetched w |})).
Proof.
  intros H. destruct self as [url func interval lock last]. cbn in H.
  unfold_refresh. rewrite H. reflexivity.
Qed.

(** A call that returns [(True, proxies)] has invoked the scraper exactly
    once, has got [proxies] from it, and has stamped the resource with the
    last reading of the clock it took. *)
Lemma refresh_success_inv (force : bool) (self self1 : ProxyResource)
    (w w1 : World) (proxies : set Proxy) :
  refresh force (self, w) = (Return (true, Some proxies), (self1, w1)) ->
  _func self (_url self) (List.length (fetched w)) = Ok proxies
  /\ fetched w1 = (fetched w ++ [_url self])%list
  /\ now w1 = now w
  /\ ticks w < ticks w1
  /\ self1 = with_lock_bit false
               (with_last_refresh_time (now w (pred (ticks w1))) self).
Proof.
  destruct self as [url func interval lock last].
  unfold_refresh.
  destruct force; cbn.
  - destruct lock; cbn; [discriminate |].
    destruct (func url (List.length (fetched w))) as [ps | e].
    + cbn. intros H. inversion H; subst; cbn. repeat split; auto.
    + destruct e; cbn; discriminate.
  - destruct (now w (ticks w) <? last + interval)%float; cbn; [discriminate |].
    destruct lock; cbn; [discriminate |].
    destruct (last + interval <=? now w (S (ticks w)))%float; cbn;
      [| discriminate].
    destruct (func url (List.length (fetched w))) as [ps | e].
    + cbn. intros H. inversion H; subst; cbn. repeat split; auto.
    + destruct e; cbn; discriminate.
Qed.

(** C1, as amended.  If an unforced refresh succeeds, it has invoked the
    scraper once and has stamped the resource with the last reading [t1]
    of the clock it took.  If a second unforced refresh of the resource
    then reads a time [t2] with [t1 + _refresh_interval > t2], the sum
    being the rounded sum of float addition as the code computes it, the
    second call returns [(False, None)], invokes no scraper and leaves the
    resource, and with it [_last_refresh_time], as it was: one fetch
    between the two calls. *)
Theorem refresh_twice_within_interval
    (self self1 : ProxyResource) (w w1 : World) (proxies : set Proxy) :
  refresh false (self, w) = (Return (true, Some proxies), (self1, w1)) ->
  (now w1 (ticks w1) <? now w (pred (ticks w1)) + _refresh_interval self)%float
  = true ->
  _func self (_url self) (List.length (fetched w)) = Ok proxies
  /\ _last_refresh_time self1 = now w (pred (ticks w1))
  /\ exists w2,
       refresh false (self1, w1) = (Return (false, None), (self1, w2))
       /\ fetched w2 = (fetched w ++ [_url self])%list.
Proof.
  intros Hfirst Hsoon.
  apply refresh_success_inv in Hfirst.
  destruct Hfirst as (Hfunc & Hf & _ & _ & ->).
  split; [exact Hfunc |]. split; [reflexivity |].
  eexists. split; [apply refresh_too_soon; exact Hsoon |].
  exact Hf.
Qed.

Lemma refresh_twice_within_interval_witness :
  returning_func "http://www.proxy-daily.com" 0 = Ok (empty_set Proxy)
  /\ _last_refresh_time (with_last_refresh_time 1002 sample_resource)
     = now sample_world 2
  /\ exists w2,
       refresh false
         (with_last_refresh_time 1002 sample_resource,
          {| now := now sample_world; ticks := 3;
             fetched := ["http://www.proxy-daily.com"] |})
       = (Return (false, None),
          (with_last_refresh_time 1002 sample_resource, w2))
       /\ fetched w2 = ["http://www.proxy-daily.com"].
Proof.
  apply (refresh_twice_within_interval
           sample_resource (with_last_refresh_time 1002 sample_resource)
           sample_world
           {| now := now sample_world; ticks := 3;
              fetched := ["http://www.proxy-daily.com"] |}
           (empty_set Proxy)).
  - reflexivity.
  - reflexivity.
Defined.

(** C1 as stated fails at the rounded boundary.  The first call stamps the
    resource with t1 = 1700000000.25 and the second call reads
    t2 = 1700000000.35 (the float nearest to it), with an interval of 0.1
    (the float nearest to it).  Then t2 - t1 is less than the interval:
    the float subtraction says so, and so do the exact values
    m * 2 ^ e of the three floats, since (m2 - m1) * 2 ^ 34 < mi.  But the
    float sum t1 + 0.1 rounds to t2, so [t1 + interval > t2] is false and
    [t1 + interval <= t2] is true: the second call takes the lock and
    fetches again. *)
Lemma second_call_at_rounded_boundary_fetches :
  exists self1 w1 self2 w2,
    refresh false (boundary_resource, boundary_world)
    = (Return (true, Some (empty_set Proxy)), (self1, w1))
    /\ _last_refresh_time self1 = 1700000000.25%float
    /\ now w1 (ticks w1) = 1700000000.35%float
    /\ (now w1 (ticks w1) - _last_refresh_time self1
        <? _refresh_interval self1)%float = true
    /\ Prim2SF (_last_refresh_time self1)
       = S754_finite false 7130316801048576 (-22)
    /\ Prim2SF (now w1 (ticks w1))
       = S754_finite false 7130316801468006 (-22)
    /\ Prim2SF (_refresh_interval self1)
       = S754_finite false 7205759403792794 (-56)
    /\ ((7130316801468006 - 7130316801048576) * 2 ^ 34 < 7205759403792794)%Z
    /\ refresh false (self1, w1)
       = (Return (true, Some (empty_set Proxy)), (self2, w2))
    /\ fetched w2 = ["http://www.proxy-daily.com"; "http://www.proxy-daily.com"].
Proof.
  do 4 eexists.
  split; [vm_compute; reflexivity |].
  split; [reflexivity |].
  split; [reflexivity |].
  split; [vm_compute; reflexivity |].
  split; [vm_compute; reflexivity |].
  split; [vm_compute; reflexivity |].
  split; [vm_compute; reflexivity |].
  split; [vm_compute; reflexivity |].
  split; [vm_compute; reflexivity |].
  reflexivity.
Qed.

(** C2.  When the scraper raises InvalidHTMLError or RequestNotOKError,
    refresh returns [(False, None)]: it does not raise, and the resource,
    [_last_refresh_time] included, is as before the call.  (The lock is
    free when the call starts, as it is between sequential calls.) *)
Theorem refresh_swallows_scraper_failures
    (self : ProxyResource) (w : World) (force : bool) (e : exn) :
  _lock self = false ->
  _func self (_url self) (List.length (fetched w)) = Raise e ->
  e = InvalidHTMLError \/ e = RequestNotOKError ->
  exists w',
    refresh force (self, w) = (Return (false, None), (self, w')).
Proof.
  intros Hlock Hraise He.
  destruct self as [url func interval lock last]. cbn in *. subst lock.
  unfold_refresh.
  destruct force; cbn.
  - rewrite Hraise.
    destruct He; subst e; cbn; eexists; reflexivity.
  - destruct (now w (ticks w) <? last + interval)%float; cbn;
      [eexists; reflexivity |].
    destruct (last + interval <=? now w (S (ticks w)))%float; cbn;
      [| eexists; reflexivity].
    rewrite Hraise.
    destruct He; subst e; cbn; eexists; reflexivity.
Qed.

Lemma refresh_swallows_scraper_failures_witness :
  exists w',
    refresh true (failing_resource, sample_world)
    = (Return (false, None), (failing_resource, w')).
Proof.
  apply (refresh_swallows_scraper_failures
           failing_resource sample_world true RequestNotOKError).
  - reflexivity.
  - reflexivity.
  - right. reflexivity.
Defined.

(** C4.  A forced refresh invokes the scraper, whatever the clock and the
    time of the last refresh; it stamps the resource with the clock when
    the scraper returns, and leaves [_last_refresh_time] as it was when the
    scraper raises. *)
Theorem forced_refresh_always_fetches (self : ProxyResource) (w : World) :
  _lock self = false ->
  exists c self' w',
    refresh true (self, w) = (c, (self', w'))
    /\ fetched w' = (fetched w ++ [_url self])%list
    /\ match _func self (_url self) (List.length (fetched w)) with
       | Ok proxies =>
           c = Return (true, Some proxies)
           /\ _last_refresh_time self' = now w (ticks w)
       | Raise _ =>
           _last_refresh_time self' = _last_refresh_time self
       end.
Proof.
  intros Hlock.
  destruct self as [url func interval lock last]. cbn in *. subst lock.
  unfold_refresh.
  destruct (func url (List.length (fetched w))) as [ps | e].
  - cbn. do 3 eexists. repeat split.
  - destruct e; cbn; do 3 eexists; repeat split.
Qed.

Lemma forced_refresh_always_fetches_witness :
  exists c self' w',
    refresh true (sample_resource, sample_world) = (c, (self', w'))
    /\ fetched w' = ["http://www.proxy-daily.com"]
    /\ c = Return (true, Some (empty_set Proxy))
    /\ _last_refresh_time self' = 1000%float.
Proof.
  destruct (forced_refresh_always_fetches sample_resource sample_world eq_refl)
    as (c & self' & w' & Hrun & Hfetched & Hc & Hlast).
  exists c, self', w'. auto.
Defined.

(** C10.  A new resource has [_last_refresh_time = 0]; when the readings of
    the clock its two guards take are at least [refresh_interval], the
    first unforced refresh passes both guards and invokes the scraper.
    What the call gives is what the scraper gives: [(True, proxies)] and a
    stamp when it returns [proxies], [(False, None)] when it raises one of
    the two exceptions refresh handles, and its exception otherwise. *)
Theorem first_refresh_not_delayed
    (url : string) (func : string -> nat -> result (set Proxy))
    (refresh_interval : float) (w : World) :
  _last_refresh_time (__init__ url func refresh_interval) = 0%float
  /\ ((refresh_interval <=? now w (ticks w))%float = true ->
      (refresh_interval <=? now w (S (ticks w)))%float = true ->
      exists c self' w',
        refresh false (__init__ url func refresh_interval, w) = (c, (self', w'))
        /\ fetched w' = (fetched w ++ [url])%list
        /\ match func url (List.length (fetched w)) with
           | Ok proxies =>
               c = Return (true, Some proxies)
               /\ _last_refresh_time self' = now w (S (S (ticks w)))
           | Raise e =>
               c = match e with
                   | InvalidHTMLError | RequestNotOKError => Return (false, None)
                   | _ => Throw e
                   end
               /\ _last_refresh_time self' = 0%float
           end).
Proof.
  split; [reflexivity |].
  intros H1 H2.
  unfold_refresh.
  rewrite zero_add_ltb, (float_le_not_lt _ _ H1). cbn.
  rewrite zero_add_leb, H2. cbn.
  destruct (func url (List.length (fetched w))) as [ps | e].
  - cbn. do 3 eexists. repeat split.
  - destruct e; cbn; do 3 eexists; repeat split.
Qed.

Lemma first_refresh_not_delayed_witness :
  exists c self' w',
    refresh false (sample_resource, sample_world) = (c, (self', w'))
    /\ fetched w' = ["http://www.proxy-daily.com"]
    /\ c = Return (true, Some (empty_set Proxy))
    /\ _last_refresh_time self' = now sample_world 2.
Proof.
  apply (proj2 (first_refresh_not_delayed
                  "http://www.proxy-daily.com" returning_func 60 sample_world));
    reflexivity.
Defined.

(** ** The table scrapers *)

Lemma table_scraper_unfold (t : table_source) :
  table_scraper t = scrape_table (table_row t).
Proof. destruct t; reflexivity. Qed.

(** The loop adds one record per row to the set, and nothing else; it
    stops at the first row whose body raises. *)
Lemma for_rows_spec (body : list string -> result Proxy) (rows : list node) :
  forall acc proxies,
    for_rows body rows acc = Ok proxies ->
    (forall row, In row rows ->
       exists p, body (row_data row) = Ok p /\ In p proxies)
    /\ (forall p, In p proxies ->
          In p acc \/ exists row, In row rows /\ body (row_data row) = Ok p)
    /\ (forall p, In p acc -> In p proxies).
Proof.
  induction rows as [| row rest IH]; intros acc proxies H; cbn in H.
  - inversion H; subst. repeat split; [intros ? [] | auto | auto].
  - destruct (body (row_data row)) as [p0 |] eqn:Hrow; cbn in H; [| discriminate].
    apply IH in H. destruct H as (Hall & Honly & Hacc).
    assert (Hp0 : In p0 proxies) by (apply Hacc, set_add_intro2; reflexivity).
    repeat split.
    + intros r [<- | Hr]; [eauto | auto].
    + intros p Hp. destruct (Honly p Hp) as [Hin | (r & Hr & Hb)].
      * apply set_add_elim in Hin. destruct Hin as [-> | Hin]; [| auto].
        right. exists row. split; [left; reflexivity | assumption].
      * right. exists r. split; [right; assumption | assumption].
    + intros p Hp. apply Hacc, set_add_intro1, Hp.
Qed.

Lemma except_Ok {A} (body : result A) (a : A) :
  except_AttributeError_KeyError body = Ok a -> body = Ok a.
Proof. destruct body as [| []]; cbn; congruence. Qed.

(** A table scraper that returns has got an OK response and has run its
    loop to the end over the rows of the table. *)
Lemma scrape_table_Ok (body : list string -> result Proxy) (get : Requests)
    (url : string) (proxies : set Proxy) :
  scrape_table body get url = Ok proxies ->
  exists response,
    get url = Ok response
    /\ ok response = true
    /\ for_rows body (table_rows response) (empty_set Proxy) = Ok proxies.
Proof.
  unfold scrape_table, table_rows, bind.
  destruct (get url) as [response |]; [| discriminate].
  destruct (ok response) eqn:Hok; cbn [negb]; [| discriminate].
  intros H. apply except_Ok in H.
  exists response. split; [reflexivity |]. split; [exact Hok |].
  destruct (soup response) as [soup_ |]; cbn in H |- *; [| discriminate].
  destruct (find "table" [("id", "proxylisttable")] soup_) as [table |];
    cbn in H |- *; [| discriminate].
  destruct (find "tbody" [] table) as [tbody |]; cbn in H |- *;
    [assumption | discriminate].
Qed.

Ltac destruct_getitems :=
  unfold getitem, bind;
  repeat match goal with
         | |- context [nth_error ?d ?i] =>
             let E := fresh "E" in
             destruct (nth_error d i) eqn:E; [| discriminate]
         end.





(** The records a table scraper returns are the records its loop body
    makes of the rows of the table. *)
Lemma table_scraper_records (t : table_source) (get : Requests) (url : string)
    (proxies : set Proxy) (p : Proxy) :
  table_scraper t get url = Ok proxies ->
  In p proxies ->
  exists response row,
    get url = Ok response
    /\ In row (table_rows response)
    /\ table_row t (row_data row) = Ok p.
Proof.
  intros Hrun Hin.
  rewrite table_scraper_unfold in Hrun.
  apply scrape_table_Ok in Hrun. destruct Hrun as (response & Hget & _ & Hloop).
  apply for_rows_spec in Hloop. destruct Hloop as (_ & Honly & _).
  destruct (Honly p Hin) as [[] | (row & Hrow & Hp)].
  exists response, row. auto.
Qed.


Lemma proxies_of_type (type_ source_ : string) (inner_reg : list string) :
  forall acc proxies,
    proxies_of inner_reg type_ source_ acc = Ok proxies ->
    forall p, In p proxies -> In p acc \/ type p = VStr type_.
Proof.
  induction inner_reg as [| i rest IH]; intros acc proxies H p Hp; cbn in H.
  - inversion H; subst. auto.
  - unfold bind, Proxy_of_parts in H.
    destruct (split ":" i) as [| h [| q [| ? ?]]]; try discriminate.
    destruct (IH _ _ H p Hp) as [Hin | Hty]; [| auto].
    apply set_add_elim in Hin. destruct Hin as [-> | Hin]; auto.
Qed.

Lemma scrape_region_type (pattern : regex) (type_ source_ : string)
    (get : Requests) (url : string) (proxies : set Proxy) (p : Proxy) :
  scrape_region pattern type_ source_ get url = Ok proxies ->
  In p proxies ->
  type p = VStr type_.
Proof.
  unfold scrape_region, _get_proxy_daily_proxies_parse_inner, bind.
  destruct (get url) as [response |]; [| discriminate].
  destruct (ok response); cbn [negb]; [| discriminate].
  destruct (findall pattern (text response)) as [| region ?]; [discriminate |].
  destruct (findall inner_pattern region) as [| i rest] eqn:E; [discriminate |].
  intros H Hp.
  destruct (proxies_of_type _ _ _ _ _ H p Hp) as [[] | Hty]. exact Hty.
Qed.




(** C3 at a page whose table has a row with too few cells: every table
    scraper ends with IndexError, which its handler for AttributeError and
    KeyError lets through, and which refresh lets through as well.  On a
    page without the table every table scraper raises InvalidHTMLError and
    refresh returns [(False, None)]. *)
Theorem short_row_escapes_as_IndexError
    (t : table_source) (url : string) (refresh_interval : float) (w : World) :
  table_scraper t (serving short_row_page) url = Raise IndexError
  /\ fst (refresh true
            (__init__ url (func_of (table_scraper t) (fun _ => serving short_row_page))
                      refresh_interval, w))
     = Throw IndexError
  /\ table_scraper t (serving no_table_page) url = Raise InvalidHTMLError
  /\ fst (refresh true
            (__init__ url (func_of (table_scraper t) (fun _ => serving no_table_page))
                      refresh_interval, w))
     = Return (false, None).
Proof.
  assert (H1 : table_scraper t (serving short_row_page) url = Raise IndexError)
    by (destruct t; reflexivity).
  assert (H2 : table_scraper t (serving no_table_page) url = Raise InvalidHTMLError)
    by (destruct t; reflexivity).
  repeat split; try assumption.
  - unfold_refresh. unfold func_of. rewrite H1. reflexivity.
  - unfold_refresh. unfold func_of. rewrite H2. reflexivity.
Qed.

(** ** Strings *)

Lemma append_nil_r (s : string) : s ++ "" = s.
Proof. induction s as [| c s IH]; cbn; [reflexivity | now rewrite IH]. Qed.

Lemma append_assoc (a b c : string) : (a ++ b) ++ c = a ++ b ++ c.
Proof. induction a as [| x a IH]; cbn; [reflexivity | now rewrite IH]. Qed.

Lemma length_append (a b : string) :
  String.length (a ++ b) = String.length a + String.length b.
Proof. induction a as [| x a IH]; cbn; [reflexivity | now rewrite IH]. Qed.

Lemma take_all (x : string) : forall r, take (String.length x) (x ++ r) = x.
Proof.
  unfold take. induction x as [| c x IH]; intros r; cbn.
  - destruct r; reflexivity.
  - now rewrite IH.
Qed.

Lemma take_matched (x r : string) :
  take (String.length (x ++ r) - String.length r) (x ++ r) = x.
Proof.
  rewrite length_append.
  replace (String.length x + String.length r - String.length r)
    with (String.length x) by lia.
  apply take_all.
Qed.

Lemma append_same_length (a b a' b' : string) :
  a ++ b = a' ++ b' -> String.length a = String.length a' -> a = a' /\ b = b'.
Proof.
  revert a'. induction a as [| c a IH]; intros [| c' a'] H Hlen; cbn in *;
    try discriminate; [auto |].
  inversion H; subst. destruct (IH a') as [-> ->]; auto.
Qed.

Lemma all_chars_append (f : ascii -> bool) (a b : string) :
  all_chars f (a ++ b) = all_chars f a && all_chars f b.
Proof.
  induction a as [| c a IH]; cbn; [reflexivity |].
  now rewrite IH, andb_assoc.
Qed.

(** ** The matcher *)

(** What a continuation leaves is an end of what it was given. *)
Definition leaves_suffix (k : string -> option string) : Prop :=
  forall s r, k s = Some r -> exists x, s = x ++ r.

Lemma star_suffix (c : ascii -> bool) (k : string -> option string) :
  leaves_suffix k -> leaves_suffix (star c k).
Proof.
  intros Hk s. induction s as [| a s IH]; intros r H; cbn in H.
  - apply Hk, H.
  - destruct (c a); [| apply Hk, H].
    destruct (star c k s) as [r' |] eqn:E; [| apply Hk, H].
    inversion H; subst r'.
    destruct (IH r eq_refl) as (x & ->). exists (String a x). reflexivity.
Qed.

Lemma rep_suffix (c : ascii -> bool) (k : string -> option string) :
  leaves_suffix k -> forall lo hi, leaves_suffix (rep c k lo hi).
Proof.
  intros Hk lo hi. revert lo.
  induction hi as [| hi IH]; intros lo s r H; cbn in H.
  - destruct (lo =? 0)%nat; [apply Hk, H | discriminate].
  - assert (Hstop : (if (lo =? 0)%nat then k s else None) = Some r ->
                    exists x, s = x ++ r).
    { destruct (lo =? 0)%nat; [apply Hk | discriminate]. }
    destruct s as [| a s]; [apply Hstop, H |].
    destruct (c a); [| apply Hstop, H].
    destruct (rep c k (pred lo) hi s) as [r' |] eqn:E; [| apply Hstop, H].
    inversion H; subst r'.
    destruct (IH _ _ _ E) as (x & ->). exists (String a x). reflexivity.
Qed.

Lemma match_items_suffix (p : regex) : leaves_suffix (match_items p).
Proof.
  induction p as [| [a | a lo hi | a] p IH]; cbn.
  - intros s r H. inversion H; subst. exists "". reflexivity.
  - intros [| c s] r H; [discriminate |].
    destruct (atom_matches a c); [| discriminate].
    destruct (IH _ _ H) as (x & ->). exists (String c x). reflexivity.
  - apply rep_suffix, IH.
  - apply star_suffix, IH.
Qed.

(** *** Patterns of single characters *)

Lemma match_simple_app (m p : regex) (s : string) :
  simple m ->
  match_items (m ++ p)%list s
  = match match_items m s with
    | Some y => match_items p y
    | None => None
    end.
Proof.
  intros Hm. revert s. induction Hm as [| i m (a & ->) _ IH]; intros s; cbn.
  - reflexivity.
  - destruct s as [| c s]; [reflexivity |].
    destruct (atom_matches a c); [apply IH | reflexivity].
Qed.

Lemma match_simple_split (m : regex) :
  simple m ->
  forall s r,
    match_items m s = Some r ->
    exists x, s = x ++ r /\ is_marker m x /\ String.length x = List.length m.
Proof.
  unfold is_marker.
  induction 1 as [| i m (a & ->) _ IH]; intros s r H; cbn in H |- *.
  - inversion H; subst. exists "". auto.
  - destruct s as [| c s]; [discriminate |].
    destruct (atom_matches a c) eqn:E; [| discriminate].
    destruct (IH _ _ H) as (x & -> & Hx & Hlen).
    exists (String c x). cbn. rewrite E. auto.
Qed.

Lemma match_simple_extend (m : regex) :
  simple m ->
  forall x r, is_marker m x -> match_items m (x ++ r) = Some r.
Proof.
  unfold is_marker.
  induction 1 as [| i m (a & ->) _ IH]; intros x r H; cbn in H |- *.
  - inversion H; subst. reflexivity.
  - destruct x as [| c x]; [discriminate |]. cbn.
    destruct (atom_matches a c); [apply IH, H | discriminate].
Qed.

Lemma match_simple_short (m : regex) :
  simple m ->
  forall s, String.length s < List.length m -> match_items m s = None.
Proof.
  induction 1 as [| i m (a & ->) _ IH]; intros s Hlen; cbn in *; [lia |].
  destruct s as [| c s]; [reflexivity |].
  destruct (atom_matches a c); [apply IH; cbn in Hlen; lia | reflexivity].
Qed.

Lemma simple_word (w : string) : simple (word w).
Proof. induction w; cbn; constructor; eauto. Qed.

Lemma simple_app (m1 m2 : regex) :
  simple m1 -> simple m2 -> simple (m1 ++ m2)%list.
Proof. intros H1 H2. apply Forall_app. split; assumption. Qed.

Lemma simple_space : simple [One Whitespace].
Proof. repeat constructor. eauto. Qed.

Create HintDb markers.
#[local] Hint Resolve simple_word simple_app simple_space : markers.

Lemma simple_http_marker : simple http_marker.
Proof. unfold http_marker. auto 10 with markers. Qed.

Lemma simple_socks4_marker : simple socks4_marker.
Proof. unfold socks4_marker. auto 10 with markers. Qed.

Lemma simple_socks5_marker : simple socks5_marker.
Proof. unfold socks5_marker. auto 10 with markers. Qed.

(** *** The greedy star over any character *)

Lemma star_dot_some (k : string -> option string) (s r : string) :
  star (atom_matches Dot) k s = Some r ->
  exists mid rest, s = mid ++ rest /\ k rest = Some r.
Proof.
  revert r. induction s as [| a s IH]; intros r H; cbn in H.
  - exists "", "". auto.
  - destruct (star (atom_matches Dot) k s) as [r' |] eqn:E.
    + inversion H; subst r'. destruct (IH r eq_refl) as (mid & rest & -> & Hk).
      exists (String a mid), rest. auto.
    + exists "", (String a s). auto.
Qed.

Lemma star_dot_none (k : string -> option string) (s : string) :
  star (atom_matches Dot) k s = None ->
  forall mid rest, s = mid ++ rest -> k rest = None.
Proof.
  induction s as [| a s IH]; intros H mid rest Hs; cbn in H.
  - destruct mid; [| discriminate]. cbn in Hs. subst rest. exact H.
  - destruct (star (atom_matches Dot) k s) as [r' |] eqn:E; [discriminate |].
    destruct mid as [| c mid]; cbn in Hs.
    + subst rest. exact H.
    + inversion Hs; subst. eapply IH; eauto.
Qed.

(** The star gives back as little as it can: it stops at the last place
    where the rest of the pattern matches. *)
Lemma star_dot_last (k : string -> option string) (mid rest r : string) :
  k rest = Some r ->
  (forall z rest', rest = z ++ rest' -> z <> "" -> k rest' = None) ->
  star (atom_matches Dot) k (mid ++ rest) = Some r.
Proof.
  intros Hk Hlater.
  assert (Hrest : star (atom_matches Dot) k rest = Some r).
  { destruct rest as [| a rest]; cbn; [exact Hk |].
    destruct (star (atom_matches Dot) k rest) as [r' |] eqn:E; [| exact Hk].
    apply star_dot_some in E. destruct E as (z & rest' & -> & Hk').
    rewrite (Hlater (String a z) rest') in Hk'; [discriminate | reflexivity |
                                                  discriminate]. }
  induction mid as [| a mid IH]; cbn; [exact Hrest |].
  now rewrite IH.
Qed.

(** *** findall *)

Lemma findall_from_skipped (p : regex) (s : string) :
  forall k, String.length s <= k -> findall_from p k s = [].
Proof.
  induction s as [| c s IH]; intros k Hk; cbn; [reflexivity |].
  destruct k as [| k]; [cbn in Hk; lia |].
  apply IH. cbn in Hk. lia.
Qed.

Lemma findall_miss (p : regex) (c : ascii) (s : string) :
  match_items p (String c s) = None ->
  findall p (String c s) = findall p s.
Proof. unfold findall. cbn [findall_from]. now intros ->. Qed.

Lemma findall_hit (p : regex) (x r : string) :
  x <> "" ->
  match_items p (x ++ r) = Some r ->
  exists l, findall p (x ++ r) = x :: l.
Proof.
  intros Hx H. destruct x as [| c x]; [congruence |].
  unfold findall. cbn [append findall_from]. cbn [append] in H. rewrite H.
  change (String c (x ++ r)) with (String c x ++ r).
  rewrite take_matched. eauto.
Qed.

(** A pattern that starts with a single character never matches the
    empty text. *)
Lemma One_consumes (a : atom) (p : regex) (s : string) :
  match_items (One a :: p) s <> Some s.
Proof.
  cbn. destruct s as [| c s]; [discriminate |].
  destruct (atom_matches a c); [| discriminate].
  intros H. destruct (match_items_suffix p _ _ H) as (x & Hx).
  apply (f_equal String.length) in Hx. rewrite length_append in Hx.
  cbn in Hx. lia.
Qed.

(** The first match [findall] reports is the match at the first place
    where the pattern matches. *)
Lemma findall_first (p : regex) (s : string) :
  (forall t, match_items p t <> Some t) ->
  match findall p s with
  | [] => forall pre rest, s = pre ++ rest -> match_items p rest = None
  | x :: _ =>
      exists pre r,
        s = pre ++ x ++ r
        /\ match_items p (x ++ r) = Some r
        /\ (forall pre1 pre2, pre = pre1 ++ pre2 -> pre2 <> "" ->
              match_items p (pre2 ++ x ++ r) = None)
  end.
Proof.
  intros Hconsumes.
  assert (Hempty : match_items p "" = None).
  { destruct (match_items p "") as [r |] eqn:E; [| reflexivity].
    destruct (match_items_suffix p _ _ E) as (x & Hx).
    destruct x; [| discriminate]. cbn in Hx. subst r.
    now apply Hconsumes in E. }
  induction s as [| c s IH].
  - cbn. intros [| ? ?] rest H; [| discriminate]. cbn in H. now subst.
  - destruct (match_items p (String c s)) as [r |] eqn:E.
    + destruct (match_items_suffix p _ _ E) as (x & Hx).
      assert (x <> "") as Hne.
      { intros ->. cbn in Hx. subst r. now apply Hconsumes in E. }
      rewrite Hx in E |- *.
      destruct (findall_hit p x r Hne E) as (l & ->).
      exists "", r. repeat split; [assumption |].
      intros pre1 pre2 H. destruct pre1; destruct pre2; try discriminate.
      congruence.
    + rewrite (findall_miss p c s E).
      destruct (findall p s) as [| x l].
      * intros [| a pre] rest H; cbn in H.
        -- now subst.
        -- inversion H; subst. eapply IH; eauto.
      * destruct IH as (pre & r & -> & Hm & Hbefore).
        exists (String c pre), r. repeat split; [assumption |].
        intros [| a pre1] pre2 H Hne; cbn in H.
        -- subst pre2. exact E.
        -- inversion H; subst. apply (Hbefore pre1 pre2); auto.
Qed.

(** ** The marker phrases *)

Lemma match_word (w : string) (p : regex) (s r : string) :
  match_items (word w ++ p)%list s = Some r
  <-> exists y, s = w ++ y /\ match_items p y = Some r.
Proof.
  revert s. induction w as [| c w IH]; intros s; cbn.
  - split; [eauto | intros (y & -> & H); exact H].
  - destruct s as [| a s].
    + split; [discriminate | intros (y & H & _); discriminate].
    + destruct (Ascii.eqb_spec a c) as [-> | Hne].
      * rewrite IH. split; intros (y & H1 & H2); exists y; split; auto;
          congruence.
      * split; [discriminate | intros (y & H & _); congruence].
Qed.

Lemma match_word_end (w : string) (s r : string) :
  match_items (word w) s = Some r <-> s = w ++ r.
Proof.
  rewrite <- (app_nil_r (word w)), match_word. cbn.
  split; [intros (y & -> & H); congruence | intros ->; eauto].
Qed.

Lemma match_space (p : regex) (s r : string) :
  match_items (One Whitespace :: p) s = Some r
  <-> exists a y, s = String a y /\ is_space a = true /\ match_items p y = Some r.
Proof.
  cbn. destruct s as [| a s].
  - split; [discriminate | intros (? & ? & H & _); discriminate].
  - destruct (is_space a) eqn:E.
    + split; [eauto | intros (b & y & H & _ & Hy); congruence].
    + split; [discriminate | intros (b & y & H & Hb & _); congruence].
Qed.

(** A marker matches the heading with its exact letters, and with one
    white-space character of any kind between the words. *)
Lemma marker_texts (w : string) (x : string) :
  is_marker (word "Free" ++ [One Whitespace] ++ word w ++ [One Whitespace]
             ++ word "Proxy" ++ [One Whitespace] ++ word "List")%list x
  <-> exists a b c,
        is_space a = true /\ is_space b = true /\ is_space c = true
        /\ x = phrase w a b c.
Proof.
  unfold is_marker, phrase. split.
  - intros H.
    apply match_word in H. destruct H as (y1 & -> & H). cbn [app] in H.
    apply match_space in H. destruct H as (a & y2 & -> & Ha & H).
    apply match_word in H. destruct H as (y3 & -> & H). cbn [app] in H.
    apply match_space in H. destruct H as (b & y4 & -> & Hb & H).
    apply match_word in H. destruct H as (y5 & -> & H). cbn [app] in H.
    apply match_space in H. destruct H as (c & y6 & -> & Hc & H).
    apply match_word_end in H. subst y6.
    exists a, b, c. auto.
  - intros (a & b & c & Ha & Hb & Hc & ->).
    apply match_word. eexists. split; [reflexivity |]. cbn [app].
    apply match_space. do 2 eexists. split; [reflexivity |]. split; [exact Ha |].
    apply match_word. eexists. split; [reflexivity |]. cbn [app].
    apply match_space. do 2 eexists. split; [reflexivity |]. split; [exact Hb |].
    apply match_word. eexists. split; [reflexivity |]. cbn [app].
    apply match_space. do 2 eexists. split; [reflexivity |]. split; [exact Hc |].
    apply match_word_end. reflexivity.
Qed.

(** ** Regions between markers *)

Lemma two_marker_match (m1 m2 : regex) (s r : string) :
  simple m1 -> simple m2 ->
  match_items (m1 ++ [Star Dot] ++ m2)%list s = Some r ->
  exists x1 mid x2,
    s = x1 ++ mid ++ x2 ++ r /\ is_marker m1 x1 /\ is_marker m2 x2.
Proof.
  intros H1 H2 H. rewrite (match_simple_app m1 _ s H1) in H.
  destruct (match_items m1 s) as [y |] eqn:E1; [| discriminate].
  destruct (match_simple_split m1 H1 _ _ E1) as (x1 & -> & Hx1 & _).
  cbn [app match_items] in H.
  apply star_dot_some in H. destruct H as (mid & rest & -> & H).
  destruct (match_simple_split m2 H2 _ _ H) as (x2 & -> & Hx2 & _).
  exists x1, mid, x2. auto.
Qed.

Lemma two_marker_accepts (m1 m2 : regex) (x1 mid x2 post : string) :
  simple m1 -> simple m2 ->
  is_marker m1 x1 -> is_marker m2 x2 ->
  match_items (m1 ++ [Star Dot] ++ m2)%list (x1 ++ mid ++ x2 ++ post) <> None.
Proof.
  intros H1 H2 Hx1 Hx2 H.
  rewrite (match_simple_app m1 _ _ H1), (match_simple_extend m1 H1 _ _ Hx1) in H.
  cbn [app match_items] in H.
  pose proof (star_dot_none _ _ H mid (x2 ++ post) eq_refl) as Hnone.
  rewrite (match_simple_extend m2 H2 _ _ Hx2) in Hnone. discriminate.
Qed.

Lemma simple_consumes (m p : regex) (t : string) :
  simple m -> m <> [] -> match_items (m ++ p)%list t <> Some t.
Proof.
  intros Hm Hne. destruct Hm as [| i m (a & ->) _]; [congruence |].
  cbn [app]. apply One_consumes.
Qed.

(** The scan for a region between two markers finds nothing exactly when
    the markers do not occur in order; what it finds starts with a text of
    the first marker and ends with a text of the second. *)
Lemma two_marker_scan (m1 m2 : regex) (s : string) :
  simple m1 -> simple m2 -> m1 <> [] ->
  match findall (m1 ++ [Star Dot] ++ m2)%list s with
  | [] => ~ in_order m1 m2 s
  | region :: _ =>
      exists pre post x1 mid x2,
        s = pre ++ region ++ post
        /\ region = x1 ++ mid ++ x2
        /\ is_marker m1 x1 /\ is_marker m2 x2
  end.
Proof.
  intros H1 H2 Hne.
  pose proof (findall_first (m1 ++ [Star Dot] ++ m2)%list s
                (fun t => simple_consumes m1 _ t H1 Hne)) as Hfirst.
  destruct (findall (m1 ++ [Star Dot] ++ m2)%list s) as [| region l].
  - intros (pre & x1 & mid & x2 & post & Hs & Hx1 & Hx2).
    apply (two_marker_accepts m1 m2 x1 mid x2 post H1 H2 Hx1 Hx2).
    apply (Hfirst pre). exact Hs.
  - destruct Hfirst as (pre & r & Hs & Hm & _).
    destruct (two_marker_match m1 m2 _ _ H1 H2 Hm) as (x1 & mid & x2 & Hx & Hx1 & Hx2).
    exists pre, r, x1, mid, x2. repeat split; try assumption.
    replace (x1 ++ mid ++ x2 ++ r) with ((x1 ++ mid ++ x2) ++ r) in Hx
      by now rewrite !append_assoc.
    apply append_same_length in Hx; [tauto |].
    apply (f_equal String.length) in Hx.
    repeat rewrite length_append in Hx. repeat rewrite length_append. lia.
Qed.

Lemma star_dot_all (s : string) :
  star (atom_matches Dot) (fun t => Some t) s = Some "".
Proof. induction s as [| a s IH]; cbn; [reflexivity | now rewrite IH]. Qed.

(** The scan of a pattern with an opening marker only finds nothing
    exactly when the marker does not occur; what it finds starts with a
    text of the marker and runs to the end of the document. *)
Lemma one_marker_scan (m : regex) (s : string) :
  simple m -> m <> [] ->
  match findall (m ++ [Star Dot])%list s with
  | [] => ~ occurs m s
  | region :: _ =>
      exists pre x rest,
        s = pre ++ region /\ region = x ++ rest /\ is_marker m x
  end.
Proof.
  intros Hm Hne.
  pose proof (findall_first (m ++ [Star Dot])%list s
                (fun t => simple_consumes m _ t Hm Hne)) as Hfirst.
  destruct (findall (m ++ [Star Dot])%list s) as [| region l].
  - intros (pre & x & post & Hs & Hx).
    specialize (Hfirst pre (x ++ post) Hs).
    rewrite (match_simple_app m _ _ Hm), (match_simple_extend m Hm _ _ Hx) in Hfirst.
    cbn in Hfirst. rewrite star_dot_all in Hfirst. discriminate.
  - destruct Hfirst as (pre & r & Hs & Hmatch & _).
    rewrite (match_simple_app m _ _ Hm) in Hmatch.
    destruct (match_items m (region ++ r)) as [y |] eqn:E; [| discriminate].
    cbn in Hmatch. rewrite star_dot_all in Hmatch. inversion Hmatch; subst r.
    rewrite append_nil_r in Hs, E.
    destruct (match_simple_split m Hm _ _ E) as (x & Hx & Hmx & _).
    exists pre, x, y. auto.
Qed.

(** The body of a proxy-daily scraper on an OK response. *)
Lemma scrape_region_unfold (pattern : regex) (type_ source_ : string)
    (get : Requests) (url : string) (response : Response) :
  get url = Ok response -> ok response = true ->
  scrape_region pattern type_ source_ get url
  = match findall pattern (text response) with
    | [] => Raise InvalidHTMLError
    | region :: _ => _get_proxy_daily_proxies_parse_inner region type_ source_
    end.
Proof. intros Hget Hok. unfold scrape_region, bind. now rewrite Hget, Hok. Qed.

Lemma scrape_two_markers (m1 m2 : regex) (type_ source_ : string)
    (get : Requests) (url : string) (response : Response) :
  simple m1 -> simple m2 -> m1 <> [] ->
  get url = Ok response -> ok response = true ->
  (~ in_order m1 m2 (text response) ->
   scrape_region (m1 ++ [Star Dot] ++ m2)%list type_ source_ get url
   = Raise InvalidHTMLError)
  /\ (in_order m1 m2 (text response) ->
      exists pre region post x1 mid x2,
        text response = pre ++ region ++ post
        /\ region = x1 ++ mid ++ x2
        /\ is_marker m1 x1 /\ is_marker m2 x2
        /\ scrape_region (m1 ++ [Star Dot] ++ m2)%list type_ source_ get url
           = _get_proxy_daily_proxies_parse_inner region type_ source_).
Proof.
  intros H1 H2 Hne Hget Hok.
  rewrite (scrape_region_unfold _ _ _ _ _ _ Hget Hok).
  pose proof (two_marker_scan m1 m2 (text response) H1 H2 Hne) as Hscan.
  destruct (findall (m1 ++ [Star Dot] ++ m2)%list (text response)) as [| region l].
  - split; [reflexivity | contradiction].
  - destruct Hscan as (pre & post & x1 & mid & x2 & Hs & Hr & Hx1 & Hx2).
    split.
    + intros Hno. exfalso. apply Hno.
      exists pre, x1, mid, x2, post. subst region.
      rewrite Hs, !append_assoc. auto.
    + intros _. exists pre, region, post, x1, mid, x2. auto.
Qed.

(** C6, as amended.  On an OK response, get_proxy_daily_http_proxies and
    get_proxy_daily_socks4_proxies raise InvalidHTMLError unless a text of
    their opening marker and, after it, a text of their closing marker
    occur in the document; when they occur, whatever lies between them,
    line breaks included, the region parsed starts with the one and ends
    with the other.  get_proxy_daily_socks5_proxies has an opening marker
    only: it raises InvalidHTMLError unless a text of it occurs, and the
    region it parses runs from there to the end of the document.  A text
    of a marker is the heading in its exact letters, with one white-space
    character between its words. *)
Theorem region_scan_fails_closed
    (get : Requests) (url : string) (response : Response) :
  get url = Ok response ->
  ok response = true ->
  ((~ in_order http_marker socks4_marker (text response) ->
    get_proxy_daily_http_proxies get url = Raise InvalidHTMLError)
   /\ (in_order http_marker socks4_marker (text response) ->
       exists pre region post x1 mid x2,
         text response = pre ++ region ++ post
         /\ region = x1 ++ mid ++ x2
         /\ is_marker http_marker x1 /\ is_marker socks4_marker x2
         /\ get_proxy_daily_http_proxies get url
            = _get_proxy_daily_proxies_parse_inner region "http" "proxy-daily-http"))
  /\ ((~ in_order socks4_marker socks5_marker (text response) ->
       get_proxy_daily_socks4_proxies get url = Raise InvalidHTMLError)
      /\ (in_order socks4_marker socks5_marker (text response) ->
          exists pre region post x1 mid x2,
            text response = pre ++ region ++ post
            /\ region = x1 ++ mid ++ x2
            /\ is_marker socks4_marker x1 /\ is_marker socks5_marker x2
            /\ get_proxy_daily_socks4_proxies get url
               = _get_proxy_daily_proxies_parse_inner region "socks4" "proxy-daily-socks4"))
  /\ ((~ occurs socks5_marker (text response) ->
       get_proxy_daily_socks5_proxies get url = Raise InvalidHTMLError)
      /\ (occurs socks5_marker (text response) ->
          exists pre region x rest,
            text response = pre ++ region
            /\ region = x ++ rest
            /\ is_marker socks5_marker x
            /\ get_proxy_daily_socks5_proxies get url
               = _get_proxy_daily_proxies_parse_inner region "socks5" "proxy-daily-socks5"))
  /\ (forall x,
        (is_marker http_marker x
         <-> exists a b c, is_space a = true /\ is_space b = true
                           /\ is_space c = true /\ x = phrase "Http/Https" a b c)
        /\ (is_marker socks4_marker x
            <-> exists a b c, is_space a = true /\ is_space b = true
                              /\ is_space c = true /\ x = phrase "Socks4" a b c)
        /\ (is_marker socks5_marker x
            <-> exists a b c, is_space a = true /\ is_space b = true
                              /\ is_space c = true /\ x = phrase "Socks5" a b c)).
Proof.
  intros Hget Hok.
  split; [| split; [| split]].
  - apply (scrape_two_markers http_marker socks4_marker "http" "proxy-daily-http");
      auto using simple_http_marker, simple_socks4_marker. discriminate.
  - apply (scrape_two_markers socks4_marker socks5_marker "socks4" "proxy-daily-socks4");
      auto using simple_socks4_marker, simple_socks5_marker. discriminate.
  - unfold get_proxy_daily_socks5_proxies.
    rewrite (scrape_region_unfold _ _ _ _ _ _ Hget Hok).
    pose proof (one_marker_scan socks5_marker (text response) simple_socks5_marker)
      as Hscan.
    unfold socks5_pattern.
    destruct (findall (socks5_marker ++ [Star Dot])%list (text response))
      as [| region l].
    + split; [reflexivity |]. intros Hocc. exfalso. apply Hscan; [discriminate |].
      exact Hocc.
    + destruct Hscan as (pre & x & rest & Hs & Hr & Hx); [discriminate |].
      split.
      * intros Hno. exfalso. apply Hno. exists pre, x, rest. subst region. auto.
      * intros _. exists pre, region, x, rest. auto.
  - intros x. repeat split; apply marker_texts.
Qed.

Lemma region_scan_fails_closed_witness :
  (~ occurs socks5_marker socks5_doc ->
   get_proxy_daily_socks5_proxies (serving (text_page socks5_doc))
                                  "http://www.proxy-daily.com"
   = Raise InvalidHTMLError)
  /\ (occurs socks5_marker socks5_doc ->
      exists pre region x rest,
        socks5_doc = pre ++ region
        /\ region = x ++ rest
        /\ is_marker socks5_marker x
        /\ get_proxy_daily_socks5_proxies (serving (text_page socks5_doc))
                                          "http://www.proxy-daily.com"
           = _get_proxy_daily_proxies_parse_inner region "socks5" "proxy-daily-socks5").
Proof.
  apply (region_scan_fails_closed (serving (text_page socks5_doc))
           "http://www.proxy-daily.com" (text_page socks5_doc));
    reflexivity.
Defined.

(** C6 as stated fails on get_proxy_daily_socks5_proxies: its pattern has
    no closing marker.  On a document in which no other marker follows the
    socks5 heading, the scraper raises nothing: the region it parses is
    the rest of the document. *)
Lemma socks5_region_is_rest_of_document :
  ~ occurs http_marker socks5_doc
  /\ ~ occurs socks4_marker socks5_doc
  /\ findall socks5_pattern socks5_doc = [socks5_doc]
  /\ get_proxy_daily_socks5_proxies (serving (text_page socks5_doc))
                                    "http://www.proxy-daily.com"
     = Ok [socks5_record].
Proof.
  split; [| split; [| split]]; try reflexivity.
  - pose proof (one_marker_scan http_marker socks5_doc simple_http_marker) as H.
    apply H. discriminate.
  - pose proof (one_marker_scan socks4_marker socks5_doc simple_socks4_marker) as H.
    apply H. discriminate.
Qed.

(** ** The example document *)

Lemma findall_hit_exact (p : regex) (c : ascii) (x r : string) :
  match_items p (String c x ++ r) = Some r ->
  findall p (String c x ++ r)
  = String c x :: findall_from p (String.length x) (x ++ r).
Proof.
  intros H. unfold findall. cbn [append findall_from]. cbn [append] in H.
  rewrite H.
  change (String c (x ++ r)) with (String c x ++ r).
  rewrite take_matched, length_append. cbn [String.length].
  replace (S (String.length x) + String.length r - String.length r)
    with (S (String.length x)) by lia.
  reflexivity.
Qed.

Lemma findall_from_skip (p : regex) (x r : string) :
  findall_from p (String.length x) (x ++ r) = findall p r.
Proof.
  induction x as [| c x IH]; cbn [append String.length]; [reflexivity |].
  cbn [findall_from]. exact IH.
Qed.

(** The address pattern starts with a digit. *)
Lemma inner_pattern_miss (c : ascii) (s : string) :
  is_digit c = false -> match_items inner_pattern (String c s) = None.
Proof. intros H. cbn. rewrite H. reflexivity. Qed.

Lemma findall_inner_skip (x s : string) :
  all_chars not_digit x = true ->
  findall inner_pattern (x ++ s) = findall inner_pattern s.
Proof.
  induction x as [| c x IH]; cbn [all_chars append]; [reflexivity |].
  intros H. apply andb_true_iff in H. destruct H as [Hc Hx].
  rewrite findall_miss; [auto |].
  apply inner_pattern_miss. unfold not_digit in Hc.
  now apply negb_true_iff in Hc.
Qed.

Lemma inner_pattern_example (c : ascii) (t : string) :
  is_digit c = false ->
  match_items inner_pattern ("1.2.3.4:8080" ++ String c t) = Some (String c t).
Proof. intros H. cbn. rewrite H. reflexivity. Qed.

Lemma findall_inner_example (gap1 gap2 : string) :
  all_chars not_digit gap1 = true ->
  all_chars not_digit gap2 = true ->
  findall inner_pattern (example_doc gap1 gap2) = ["1.2.3.4:8080"].
Proof.
  intros H1 H2. unfold example_doc.
  rewrite findall_inner_skip by reflexivity.
  rewrite findall_inner_skip by exact H1.
  assert (Hnext : exists c t, gap2 ++ "Free Socks4 Proxy List" = String c t
                              /\ is_digit c = false).
  { destruct gap2 as [| c gap2]; cbn [append].
    - eexists _, _. split; reflexivity.
    - exists c, (gap2 ++ "Free Socks4 Proxy List"). split; [reflexivity |].
      cbn in H2. apply andb_true_iff in H2. destruct H2 as [Hc _].
      unfold not_digit in Hc. now apply negb_true_iff in Hc. }
  destruct Hnext as (c & t & Ht & Hc).
  rewrite findall_hit_exact;
    [| rewrite Ht; apply inner_pattern_example, Hc].
  rewrite findall_from_skip, findall_inner_skip by exact H2.
  reflexivity.
Qed.

Lemma findall_http_example (gap1 gap2 : string) :
  exists l, findall http_pattern (example_doc gap1 gap2)
            = example_doc gap1 gap2 :: l.
Proof.
  pose proof (findall_hit http_pattern (example_doc gap1 gap2) "") as Hhit.
  rewrite append_nil_r in Hhit. apply Hhit; [discriminate |].
  unfold http_pattern, example_doc.
  rewrite (match_simple_app http_marker _ _ simple_http_marker).
  rewrite (match_simple_extend http_marker simple_http_marker
             "Free Http/Https Proxy List" _ eq_refl).
  cbn [app match_items].
  replace (gap1 ++ "1.2.3.4:8080" ++ gap2 ++ "Free Socks4 Proxy List")
    with ((gap1 ++ "1.2.3.4:8080" ++ gap2) ++ "Free Socks4 Proxy List")
    by now rewrite !append_assoc.
  apply star_dot_last; [reflexivity |].
  intros z rest' Hrest Hz.
  apply (match_simple_short socks4_marker simple_socks4_marker).
  apply (f_equal String.length) in Hrest. rewrite length_append in Hrest.
  destruct z; [congruence |]. cbn in Hrest |- *. lia.
Qed.

(** A text of the socks5 marker holds the character 5. *)
Lemma socks5_marker_has_5 (x : string) :
  is_marker socks5_marker x ->
  all_chars (fun c => negb (Ascii.eqb c "5")) x = false.
Proof.
  intros H. apply (marker_texts "Socks5") in H.
  destruct H as (a & b & c & _ & _ & _ & ->).
  unfold phrase. cbn. now rewrite !andb_false_r.
Qed.

Lemma not_digit_not_5 (s : string) :
  all_chars not_digit s = true ->
  all_chars (fun c => negb (Ascii.eqb c "5")) s = true.
Proof.
  induction s as [| c s IH]; cbn; [reflexivity |].
  intros H. apply andb_true_iff in H. destruct H as [Hc Hs].
  rewrite (IH Hs), andb_true_r.
  destruct (Ascii.eqb_spec c "5") as [-> | _]; [discriminate | reflexivity].
Qed.

Lemma example_doc_without_socks5 (gap1 gap2 : string) :
  all_chars not_digit gap1 = true ->
  all_chars not_digit gap2 = true ->
  ~ in_order socks4_marker socks5_marker (example_doc gap1 gap2).
Proof.
  intros H1 H2 (pre & x1 & mid & x2 & post & Hdoc & _ & Hx2).
  apply socks5_marker_has_5 in Hx2.
  assert (Hall : all_chars (fun c => negb (Ascii.eqb c "5")) (example_doc gap1 gap2)
                 = true).
  { unfold example_doc. rewrite !all_chars_append.
    rewrite (not_digit_not_5 _ H1), (not_digit_not_5 _ H2). reflexivity. }
  rewrite Hdoc, !all_chars_append, Hx2 in Hall.
  rewrite !andb_false_r, ?andb_false_l in Hall.
  repeat rewrite ?andb_false_r, ?andb_false_l in Hall. discriminate.
Qed.

(** C5, as amended.  On the document that holds the http heading, the
    address 1.2.3.4:8080 and the socks4 heading, with anything free of
    digits in between, get_proxy_daily_http_proxies returns the one record
    of host "1.2.3.4", port "8080" (the text, as split from the address)
    and type "http"; get_proxy_daily_socks4_proxies returns no record: it
    raises InvalidHTMLError. *)
Theorem example_document_records (gap1 gap2 url : string) :
  all_chars not_digit gap1 = true ->
  all_chars not_digit gap2 = true ->
  get_proxy_daily_http_proxies (serving (text_page (example_doc gap1 gap2))) url
  = Ok [example_record]
  /\ get_proxy_daily_socks4_proxies (serving (text_page (example_doc gap1 gap2))) url
     = Raise InvalidHTMLError.
Proof.
  intros H1 H2. split.
  - unfold get_proxy_daily_http_proxies.
    rewrite (scrape_region_unfold _ _ _ _ _ (text_page (example_doc gap1 gap2))
               eq_refl eq_refl).
    cbn [text text_page].
    destruct (findall_http_example gap1 gap2) as (l & ->).
    unfold _get_proxy_daily_proxies_parse_inner.
    rewrite (findall_inner_example gap1 gap2 H1 H2). reflexivity.
  - apply (region_scan_fails_closed _ url (text_page (example_doc gap1 gap2))
             eq_refl eq_refl).
    apply example_doc_without_socks5; assumption.
Qed.

Lemma example_document_records_witness :
  get_proxy_daily_http_proxies
    (serving (text_page (example_doc " ... " " ... "))) "http://www.proxy-daily.com"
  = Ok [example_record]
  /\ get_proxy_daily_socks4_proxies
       (serving (text_page (example_doc " ... " " ... "))) "http://www.proxy-daily.com"
     = Raise InvalidHTMLError.
Proof.
  apply (example_document_records " ... " " ... " "http://www.proxy-daily.com");
    reflexivity.
Defined.

(** C5 as stated fails on the port: the record holds the text "8080",
    which is not the number 8080. *)
Lemma example_port_is_text :
  get_proxy_daily_http_proxies
    (serving (text_page (example_doc " ... " " ... "))) "http://www.proxy-daily.com"
  = Ok [example_record]
  /\ port example_record = VStr "8080"
  /\ port example_record <> VInt 8080
  /\ get_proxy_daily_http_proxies
       (serving (text_page (example_doc " ... " " ... "))) "http://www.proxy-daily.com"
     <> Ok [example_record_int_port].
Proof.
  split; [reflexivity |]. split; [reflexivity |].
  split; [discriminate |]. vm_compute. discriminate.
Qed.

(** ** refresh, concurrently *)

(** The steps of a thread, case by case. *)
Lemma step_thread_inv (i : nat) (c c' : config) :
  step_thread i c = Some c' ->
  let th := threads c i in
  let r := target th in
  let self := resources c r in
  let t := clock c (reads c) in
  (at_ th = Guard
   /\ exists p, (p = Acquire \/ p = Finished (Return (false, None)))
                /\ (c' = goto i p c \/ c' = goto i p (tick c)))
  \/ (at_ th = Acquire /\ _lock self = false
      /\ c' = goto i Recheck (put_resource r (with_lock_bit true self) c))
  \/ (at_ th = Recheck
      /\ (forced th = true
          \/ (_last_refresh_time self + _refresh_interval self <=? t)%float
             = true)
      /\ (c' = start_fetch i r c \/ c' = start_fetch i r (tick c)))
  \/ (at_ th = Recheck /\ forced th = false
      /\ (_last_refresh_time self + _refresh_interval self <=? t)%float = false
      /\ c' = goto i (Leave (Return (false, None))) (tick c))
  \/ (exists n proxies,
        at_ th = Fetching n /\ _func self (_url self) n = Ok proxies
        /\ c' = goto i (Stamp proxies) c)
  \/ (exists n e v,
        at_ th = Fetching n /\ _func self (_url self) n = Raise e
        /\ c' = goto i (Leave v) c)
  \/ (exists proxies,
        at_ th = Stamp proxies
        /\ c' = goto i (Leave (Return (true, Some proxies))) (stamp r c))
  \/ (exists v,
        at_ th = Leave v
        /\ c' = goto i (Finished v) (put_resource r (with_lock_bit false self) c)).
Proof.
  unfold step_thread. cbn zeta.
  destruct (at_ (threads c i)) as [| | | n | proxies | v | v] eqn:Hpc.
  - destruct (forced (threads c i)).
    + intros H; inversion H. left. split; [reflexivity |]. exists Acquire. auto.
    + destruct (_ <? _)%float; intros H; inversion H; left;
        (split; [reflexivity |]).
      * exists (Finished (Return (false, None))). auto.
      * exists Acquire. auto.
  - destruct (_lock _) eqn:Hlock; [discriminate |].
    intros H; inversion H. right; left. auto.
  - destruct (forced (threads c i)) eqn:Hf.
    + intros H; inversion H. right; right; left. auto.
    + destruct (_ <=? _)%float eqn:Hdue; intros H; inversion H.
      * right; right; left. auto.
      * right; right; right; left. auto.
  - destruct (stalled c n); [discriminate |].
    destruct (_func _ _ n) as [ps | e] eqn:Hfunc.
    + intros H; inversion H. do 4 right; left. eauto.
    + intros H. do 5 right; left. exists n, e.
      destruct e; inversion H; eauto.
  - intros H; inversion H. do 6 right; left. eauto.
  - intros H; inversion H. do 7 right. eauto.
  - discriminate.
Qed.

Lemma mutex_frame (c c' : config) (i : nat) (p : pc) :
  let r := target (threads c i) in
  (forall j, threads c' j
             = if (j =? i)%nat
               then {| target := r; forced := forced (threads c i); at_ := p |}
               else threads c j) ->
  (forall q, q <> r -> resources c' q = resources c q) ->
  (holding p = true ->
   _lock (resources c' r) = true
   /\ (holds c i = false -> _lock (resources c r) = false)) ->
  (holding p = false -> holds c i = false ->
   _lock (resources c' r) = _lock (resources c r)) ->
  mutex c -> mutex c'.
Proof.
  intros r Hth Hres Hin Hout [Hlock Hone].
  assert (Hother : forall j, j <> i -> holds c' j = holds c j
                                       /\ target (threads c' j) = target (threads c j)).
  { intros j Hj. unfold holds. rewrite Hth.
    destruct (Nat.eqb_spec j i); [contradiction | auto]. }
  assert (Hself : holds c' i = holding p /\ target (threads c' i) = r).
  { unfold holds. rewrite Hth, Nat.eqb_refl. auto. }
  split.
  - intros j Hj. destruct (Nat.eq_dec j i) as [-> | Hne].
    + destruct Hself as [Hh ->]. rewrite Hh in Hj. apply Hin, Hj.
    + destruct (Hother j Hne) as [Hh Ht]. rewrite Hh in Hj. rewrite Ht.
      destruct (Nat.eq_dec (target (threads c j)) r) as [Heq | Hq].
      * rewrite Heq. destruct (holding p) eqn:Hp; [apply Hin; reflexivity |].
        destruct (holds c i) eqn:Hi.
        -- exfalso. apply Hne. apply Hone; assumption.
        -- rewrite Hout by auto. rewrite <- Heq. apply Hlock, Hj.
      * rewrite Hres by assumption. apply Hlock, Hj.
  - intros j k Hj Hk Htarget.
    destruct (Nat.eq_dec j i) as [-> | Hji], (Nat.eq_dec k i) as [-> | Hki];
      try reflexivity.
    + exfalso. destruct Hself as [Hh Hr]. rewrite Hh in Hj. rewrite Hr in Htarget.
      destruct (Hother k Hki) as [Hhk Htk]. rewrite Hhk in Hk. rewrite Htk in Htarget.
      destruct (holds c i) eqn:Hi.
      * apply Hki. symmetry. apply Hone; auto.
      * destruct (Hin Hj) as [_ Hfree]. specialize (Hfree eq_refl).
        rewrite Htarget, (Hlock k Hk) in Hfree. discriminate.
    + exfalso. destruct Hself as [Hh Hr]. rewrite Hh in Hk. rewrite Hr in Htarget.
      destruct (Hother j Hji) as [Hhj Htj]. rewrite Hhj in Hj. rewrite Htj in Htarget.
      destruct (holds c i) eqn:Hi.
      * apply Hji. apply Hone; auto.
      * destruct (Hin Hk) as [_ Hfree]. specialize (Hfree eq_refl).
        rewrite <- Htarget, (Hlock j Hj) in Hfree. discriminate.
    + destruct (Hother j Hji) as [Hhj Htj], (Hother k Hki) as [Hhk Htk].
      rewrite Hhj in Hj. rewrite Hhk in Hk. rewrite Htj, Htk in Htarget.
      apply Hone; assumption.
Qed.

Lemma upd_other {A} (f : nat -> A) (r q : nat) (x : A) :
  q <> r -> upd f r x q = f q.
Proof. intros H. unfold upd. destruct (Nat.eqb_spec q r); [contradiction | reflexivity]. Qed.

Lemma upd_same {A} (f : nat -> A) (r : nat) (x : A) : upd f r x r = x.
Proof. unfold upd. now rewrite Nat.eqb_refl. Qed.

(** Mutual exclusion is kept by every step. *)
Lemma mutex_step (i : nat) (c c' : config) :
  step_thread i c = Some c' -> mutex c -> mutex c'.
Proof.
  intros Hstep Hm.
  assert (Hheld : holds c i = true ->
                  _lock (resources c (target (threads c i))) = true)
    by apply Hm.
  destruct (step_thread_inv i c c' Hstep)
    as [(Hpc & p & Hp & Hc) | [(Hpc & Hfree & ->) | [(Hpc & _ & Hc)
       | [(Hpc & _ & _ & ->) | [(n & ps & Hpc & _ & ->)
       | [(n & e & v & Hpc & _ & ->) | [(ps & Hpc & ->) | (v & Hpc & ->)]]]]]]];
    unfold holds in Hheld; rewrite Hpc in Hheld; cbn [holding] in Hheld;
    try (destruct Hp as [-> | ->]); try (destruct Hc as [-> | ->]);
    (eapply (mutex_frame c _ i);
     [ intros j; reflexivity
     | intros q Hq; cbn; rewrite ?upd_other by assumption; reflexivity
     | first [ discriminate
             | intros _; split;
               [ cbn; rewrite ?upd_same; cbn; auto
               | first [ unfold holds; rewrite Hpc; discriminate
                       | intros _; assumption ] ] ]
     | first [ discriminate | reflexivity
             | intros _; unfold holds; rewrite Hpc; discriminate ]
     | assumption ]).
Qed.

Lemma mutex_initial (c : config) : initial c -> mutex c.
Proof.
  intros (Hpc & _ & _). split.
  - intros i H. unfold holds in H. rewrite Hpc in H. discriminate.
  - intros i j H. unfold holds in H. rewrite Hpc in H. discriminate.
Qed.

Lemma mutex_run (sched : list nat) :
  forall c c', run sched c = Some c' -> mutex c -> mutex c'.
Proof.
  induction sched as [| i rest IH]; intros c c' H Hm; cbn in H.
  - inversion H; subst. exact Hm.
  - destruct (step_thread i c) as [c1 |] eqn:E; [| discriminate].
    eapply IH; [exact H |]. eapply mutex_step; eauto.
Qed.

(** What no step changes: whom a thread calls and how, the clock, the
    invocations that never return, and the url, the scraper and the
    interval of every resource.  The number of readings and the log of
    stamps only grow. *)
Lemma step_frame (i : nat) (c c' : config) :
  step_thread i c = Some c' ->
  (forall j, target (threads c' j) = target (threads c j)
             /\ forced (threads c' j) = forced (threads c j))
  /\ clock c' = clock c
  /\ stalled c' = stalled c
  /\ reads c <= reads c'
  /\ (exists l, stamped c' = (stamped c ++ l)%list)
  /\ (forall q, _url (resources c' q) = _url (resources c q)
                /\ _func (resources c' q) = _func (resources c q)
                /\ _refresh_interval (resources c' q)
                   = _refresh_interval (resources c q)).
Proof.
  intros Hstep.
  destruct (step_thread_inv i c c' Hstep)
    as [(Hpc & p & Hp & Hc) | [(Hpc & Hfree & ->) | [(Hpc & _ & Hc)
       | [(Hpc & _ & _ & ->) | [(n & ps & Hpc & _ & ->)
       | [(n & e & v & Hpc & _ & ->) | [(ps & Hpc & ->) | (v & Hpc & ->)]]]]]]];
    try (destruct Hc as [-> | ->]);
    (split; [| split; [| split; [| split; [| split]]]]);
    try reflexivity;
    try (cbn; lia);
    try (eexists; cbn; first [reflexivity | symmetry; apply app_nil_r]);
    try (intros j; cbn; unfold upd; destruct (Nat.eqb_spec j i) as [-> | _];
         split; reflexivity);
    try (intros q; cbn; unfold upd;
         destruct (Nat.eqb_spec q (target (threads c i))) as [-> | _];
         repeat split; reflexivity).
Qed.

Lemma quiet_step (r : nat) (i : nat) (c c' : config) :
  step_thread i c = Some c' -> quiet r c -> quiet r c'.
Proof.
  intros Hstep (Hunforced & Hfunc).
  destruct (step_frame i c c' Hstep) as (Hth & _ & _ & _ & _ & Hres).
  destruct (Hres r) as (Hurl & Hf & _).
  split.
  - intros j Hj. destruct (Hth j) as [Ht Hfo]. rewrite Hfo. apply Hunforced.
    congruence.
  - intros n. rewrite Hurl, Hf. apply Hfunc.
Qed.

(** A window that holds of the stamps of a configuration holds of the
    stamps of the configurations before it. *)
Lemma within_window_back (r : nat) (i : nat) (c c' : config) :
  step_thread i c = Some c' -> within_window r c' -> within_window r c.
Proof.
  intros Hstep Hw k k' Hin Hlt.
  destruct (step_frame i c c' Hstep) as (_ & Hclk & _ & _ & (l & Hl) & Hres).
  destruct (Hres r) as (_ & _ & Hint).
  rewrite <- Hclk, <- Hint. apply Hw; [| exact Hlt].
  rewrite Hl. apply in_or_app. left. exact Hin.
Qed.

Lemma within_window_run_back (r : nat) (sched : list nat) :
  forall c c', run sched c = Some c' -> within_window r c' -> within_window r c.
Proof.
  induction sched as [| i rest IH]; intros c c' H Hw; cbn in H.
  - inversion H; subst. exact Hw.
  - destruct (step_thread i c) as [c1 |] eqn:E; [| discriminate].
    eapply within_window_back; [exact E |]. eapply IH; eauto.
Qed.

Lemma busy_holds (c : config) (i : nat) : busy c i -> holds c i = true.
Proof. unfold holds. intros [(n & ->) | (ps & ->)]; reflexivity. Qed.

Lemma carries_stamp_keep (r : nat) (c c' : config) :
  (exists l, stamped c' = (stamped c ++ l)%list) ->
  reads c <= reads c' ->
  clock c' = clock c ->
  _last_refresh_time (resources c' r) = _last_refresh_time (resources c r) ->
  carries_stamp r c -> carries_stamp r c'.
Proof.
  intros (l & Hl) Hreads Hclk Hlast (k & Hin & Hk & Hstamp).
  exists k. rewrite Hl, Hclk, Hlast.
  split; [apply in_or_app; left; exact Hin |]. split; [lia | exact Hstamp].
Qed.

Lemma fetched_once_keep (r : nat) (c c' : config) :
  fetches r c' = fetches r c ->
  (forall j, target (threads c j) = r -> busy c j ->
             (target (threads c' j) = r /\ busy c' j) \/ carries_stamp r c') ->
  (carries_stamp r c -> carries_stamp r c') ->
  fetched_once r c -> fetched_once r c'.
Proof.
  intros Hsame Hbusy Hlast [Hle Hone]. split; [lia |].
  intros H1. rewrite Hsame in H1.
  destruct (Hone H1) as [(j & Hj & Hb) | Hstamped]; [| auto].
  destruct (Hbusy j Hj Hb) as [? | ?]; eauto.
Qed.

Lemma fetches_app (r q : nat) (l : list nat) :
  count_occ Nat.eq_dec (l ++ [q]) r
  = count_occ Nat.eq_dec l r + (if Nat.eq_dec q r then 1 else 0).
Proof. rewrite count_occ_app. cbn. destruct (Nat.eq_dec q r); reflexivity. Qed.

Ltac other_thread j i :=
  cbn; unfold upd; destruct (Nat.eqb_spec j i); [contradiction |].

(** The threads other than [i] are where they were after a step of [i]. *)
Lemma busy_other (i j : nat) (p : pc) (c c0 : config) :
  threads c0 = threads c -> j <> i -> busy c j ->
  target (threads (goto i p c0) j) = target (threads c j)
  /\ busy (goto i p c0) j.
Proof.
  intros Hth Hne Hb. unfold busy in *. cbn. unfold upd.
  destruct (Nat.eqb_spec j i); [contradiction |]. rewrite Hth. auto.
Qed.

Lemma not_busy (c : config) (i : nat) (p : pc) :
  at_ (threads c i) = p -> holding p = false \/ p = Recheck \/ (exists v, p = Leave v) ->
  ~ busy c i.
Proof.
  intros Hpc Hp [(n & H) | (ps & H)]; rewrite H in Hpc; subst p;
    destruct Hp as [Hp | [Hp | (v & Hp)]]; discriminate.
Qed.

(** A step that assigns no reading keeps the stamp a resource carries. *)
Ltac keep_stamp :=
  apply carries_stamp_keep;
  [ eexists; cbn; first [reflexivity | symmetry; apply app_nil_r]
  | cbn; lia
  | reflexivity
  | cbn; unfold upd;
    match goal with
    | |- context [(?r =? ?q)%nat] =>
        destruct (Nat.eqb_spec r q) as [-> | _]; reflexivity
    | _ => reflexivity
    end ].

(** The count is kept by every step. *)
Lemma fetched_once_step (r : nat) (i : nat) (c c' : config) :
  step_thread i c = Some c' ->
  mutex c -> quiet r c -> within_window r c ->
  fetched_once r c -> fetched_once r c'.
Proof.
  intros Hstep Hm (Hunforced & Hfunc) Hwin Hf.
  destruct (step_thread_inv i c c' Hstep)
    as [(Hpc & p & Hp & Hc) | [(Hpc & Hfree & ->) | [(Hpc & Hgo & Hc)
       | [(Hpc & _ & _ & ->) | [(n & ps & Hpc & _ & ->)
       | [(n & e & v & Hpc & He & ->) | [(ps & Hpc & ->) | (v & Hpc & ->)]]]]]]].
  - (* the guard outside the lock *)
    assert (Hnb : ~ busy c i) by (eapply not_busy; eauto).
    destruct Hc as [-> | ->];
      (apply (fetched_once_keep r c); [reflexivity | | keep_stamp | exact Hf]);
      intros j Hj Hb; left;
      (destruct (Nat.eq_dec j i) as [-> | Hne]; [contradiction |]);
      rewrite <- Hj; apply busy_other; auto.
  - (* the lock is taken *)
    assert (Hnb : ~ busy c i) by (eapply not_busy; eauto).
    apply (fetched_once_keep r c); [reflexivity | | keep_stamp | exact Hf].
    intros j Hj Hb. left.
    destruct (Nat.eq_dec j i) as [-> | Hne]; [contradiction |].
    rewrite <- Hj. apply busy_other; auto.
  - (* the scraper is invoked *)
    assert (Hnb : ~ busy c i) by (eapply not_busy; eauto).
    assert (Hcount : fetches r c' = fetches r c
                                    + (if Nat.eq_dec (target (threads c i)) r
                                       then 1 else 0)).
    { destruct Hc as [-> | ->]; unfold fetches; cbn; apply fetches_app. }
    assert (Hbusy' : busy c' i /\ target (threads c' i) = target (threads c i)).
    { destruct Hc as [-> | ->]; unfold busy; cbn; unfold upd;
        rewrite Nat.eqb_refl; cbn; eauto. }
    assert (Hothers : forall j, j <> i -> busy c j ->
                                target (threads c' j) = target (threads c j)
                                /\ busy c' j).
    { intros j Hne Hb.
      destruct Hc as [-> | ->]; unfold start_fetch; apply busy_other; auto. }
    assert (Hkeep : carries_stamp r c -> carries_stamp r c').
    { destruct Hc as [-> | ->]; keep_stamp. }
    destruct Hf as [Hle Hone].
    destruct (Nat.eq_dec (target (threads c i)) r) as [Hr | Hr].
    + (* on [r]: no invocation has been made before *)
      assert (Hzero : fetches r c = 0).
      { destruct (Nat.eq_dec (fetches r c) 1) as [H1 | H1]; [| lia].
        exfalso. destruct (Hone H1) as [(j & Hj & Hb) | (k & Hin & Hk & Hstamp)].
        - apply Hnb. replace i with j; [exact Hb |].
          apply Hm; [apply busy_holds, Hb | | congruence].
          unfold holds. rewrite Hpc. reflexivity.
        - destruct Hgo as [Hforced | Hdue].
          + rewrite (Hunforced i Hr) in Hforced. discriminate.
          + rewrite Hr, Hstamp in Hdue.
            rewrite (float_lt_not_le _ _ (Hwin k (reads c) Hin Hk)) in Hdue.
            discriminate. }
      split; [lia |]. intros _. left. exists i. destruct Hbusy'. split; congruence.
    + split; [lia |]. intros H1. rewrite Hcount, Nat.add_0_r in H1.
      destruct (Hone H1) as [(j & Hj & Hb) | Hstamped]; [| auto].
      left. exists j.
      destruct (Hothers j) as [Ht Hb']; [congruence | assumption |].
      split; congruence.
  - (* the guard under the lock says no *)
    assert (Hnb : ~ busy c i) by (eapply not_busy; eauto).
    apply (fetched_once_keep r c); [reflexivity | | keep_stamp | exact Hf].
    intros j Hj Hb. left.
    destruct (Nat.eq_dec j i) as [-> | Hne]; [contradiction |].
    rewrite <- Hj. apply busy_other; auto.
  - (* the scraper returns *)
    apply (fetched_once_keep r c); [reflexivity | | keep_stamp | exact Hf].
    intros j Hj Hb. left.
    destruct (Nat.eq_dec j i) as [-> | Hne].
    + unfold busy. cbn. unfold upd. rewrite Nat.eqb_refl. cbn. eauto.
    + rewrite <- Hj. apply busy_other; auto.
  - (* the scraper raises: not on [r] *)
    apply (fetched_once_keep r c); [reflexivity | | keep_stamp | exact Hf].
    intros j Hj Hb. left.
    destruct (Nat.eq_dec j i) as [-> | Hne].
    + exfalso. rewrite Hj in He. destruct (Hfunc n) as (ps & Hps). congruence.
    + rewrite <- Hj. apply busy_other; auto.
  - (* the resource is stamped *)
    assert (Hnew : target (threads c i) = r ->
                   carries_stamp r
                     (goto i (Leave (Return (true, Some ps)))
                           (stamp (target (threads c i)) c))).
    { intros Hr. exists (reads c). cbn. rewrite Hr, upd_same. cbn.
      split; [apply in_or_app; right; left; reflexivity |].
      split; [lia | reflexivity]. }
    apply (fetched_once_keep r c); [reflexivity | | | exact Hf].
    + intros j Hj Hb.
      destruct (Nat.eq_dec j i) as [-> | Hne].
      * right. apply Hnew, Hj.
      * left. rewrite <- Hj. apply busy_other; auto.
    + destruct (Nat.eq_dec (target (threads c i)) r) as [Hr | Hr];
        [intros _; apply Hnew, Hr |].
      apply carries_stamp_keep;
        [ eexists; reflexivity | cbn; lia | reflexivity
        | cbn; rewrite upd_other by congruence; reflexivity ].
  - (* the lock is released *)
    assert (Hnb : ~ busy c i) by (eapply not_busy; eauto).
    apply (fetched_once_keep r c); [reflexivity | | keep_stamp | exact Hf].
    intros j Hj Hb. left.
    destruct (Nat.eq_dec j i) as [-> | Hne]; [contradiction |].
    rewrite <- Hj. apply busy_other; auto.
Qed.

Lemma fetched_once_run (r : nat) (sched : list nat) :
  forall c c',
    run sched c = Some c' ->
    mutex c -> quiet r c -> within_window r c' -> fetched_once r c ->
    fetched_once r c'.
Proof.
  induction sched as [| i rest IH]; intros c c' H Hm Hq Hw Hf; cbn in H.
  - inversion H; subst. exact Hf.
  - destruct (step_thread i c) as [c1 |] eqn:E; [| discriminate].
    apply (IH c1 c' H).
    + eapply mutex_step; eauto.
    + eapply quiet_step; eauto.
    + exact Hw.
    + eapply fetched_once_step; eauto.
      eapply within_window_back; [exact E |].
      eapply within_window_run_back; eauto.
Qed.

Lemma in_flight_holds (c : config) (i : nat) :
  in_flight c i = true -> holds c i = true.
Proof.
  unfold in_flight, holds. destruct (at_ (threads c i)); cbn; congruence.
Qed.

Lemma initial_start (rs : nat -> ProxyResource) (calls : nat -> nat * bool)
    (clk : nat -> float) (stall : nat -> bool) :
  initial (start rs calls clk stall).
Proof. repeat split. Qed.

Lemma run_reaches (sched : list nat) (c : config) (P : config -> Prop) :
  match run sched c with
  | Some c' => P c'
  | None => False
  end ->
  exists c', run sched c = Some c' /\ P c'.
Proof. destruct (run sched c) as [c' |]; [eauto | contradiction]. Qed.

(** Whether a thread can move, by the program point it is at. *)
Lemma can_move_iff (c : config) (i : nat) :
  can_move c i
  <-> match at_ (threads c i) with
      | Acquire => _lock (resources c (target (threads c i))) = false
      | Fetching n => stalled c n = false
      | Finished _ => False
      | _ => True
      end.
Proof.
  unfold can_move, step_thread.
  destruct (at_ (threads c i)) as [| | | n | ps | v | v].
  - split; [trivial | intros _].
    destruct (forced _); [eauto |]. destruct (_ <? _)%float; eauto.
  - destruct (_lock _); split; intros H; try discriminate; eauto.
    destruct H as (c' & H). discriminate.
  - split; [trivial | intros _].
    destruct (forced _); [eauto |]. destruct (_ <=? _)%float; eauto.
  - destruct (stalled c n); split; intros H; try discriminate.
    + destruct H as (c' & H). discriminate.
    + reflexivity.
    + destruct (_func _ _ n) as [ps | []]; eauto.
  - split; eauto.
  - split; eauto.
  - split; [intros (c' & H); discriminate | contradiction].
Qed.

(** A step of a thread on another resource neither blocks nor unblocks a
    thread. *)
Lemma other_resource_step (i j : nat) (c c' : config) :
  target (threads c i) <> target (threads c j) ->
  step_thread j c = Some c' ->
  (can_move c i <-> can_move c' i).
Proof.
  intros Hne Hstep.
  assert (Hij : i <> j) by congruence.
  destruct (step_frame j c c' Hstep) as (_ & _ & Hstalled & _ & _ & _).
  assert (Hsame : threads c' i = threads c i
                  /\ resources c' (target (threads c i))
                     = resources c (target (threads c i))).
  { destruct (step_thread_inv j c c' Hstep)
      as [(Hpc & p & Hp & Hc) | [(Hpc & Hfree & ->) | [(Hpc & _ & Hc)
         | [(Hpc & _ & _ & ->) | [(n & ps & Hpc & _ & ->)
         | [(n & e & v & Hpc & _ & ->) | [(ps & Hpc & ->) | (v & Hpc & ->)]]]]]]];
      try (destruct Hc as [-> | ->]);
      cbn; rewrite ?upd_other by assumption; auto. }
  destruct Hsame as [Hth Hres].
  rewrite !can_move_iff, Hth, Hres, Hstalled. reflexivity.
Qed.

(** While a fetch on one resource is in flight, a forced call on another
    resource whose lock is free gets its own fetch in flight. *)
Lemma forced_call_overtakes (i j : nat) (c : config) :
  in_flight c i = true ->
  target (threads c j) <> target (threads c i) ->
  at_ (threads c j) = Guard ->
  forced (threads c j) = true ->
  _lock (resources c (target (threads c j))) = false ->
  exists c',
    run [j; j; j] c = Some c'
    /\ in_flight c' i = true /\ in_flight c' j = true.
Proof.
  intros Hi Hne Hpc Hforced Hlock.
  assert (Hij : i <> j) by congruence.
  destruct (threads c j) as [r f p] eqn:Hth. cbn in *. subst p f.
  eexists. split.
  - cbn [run]. unfold step_thread at 1. rewrite Hth. cbn.
    unfold step_thread at 1. cbn. rewrite upd_same. cbn. rewrite Hth. cbn.
    rewrite Hlock.
    unfold step_thread at 1. cbn. rewrite !upd_same. cbn. rewrite Hth. cbn.
    reflexivity.
  - unfold in_flight in *. cbn. unfold upd.
    destruct (Nat.eqb_spec i j) as [| _]; [contradiction |].
    rewrite !Nat.eqb_refl. cbn. auto.
Qed.

(** C9, as amended.  In every configuration that concurrent calls of
    refresh reach from their start:
    (1) at most one thread per resource has an invocation of the scraper
    in flight;
    (2) when the calls on a resource are unforced, its scraper returns a
    set whenever it is invoked, and every reading the clock gives after a
    reading that was assigned to [_last_refresh_time] is less than that
    reading plus the refresh interval (the sum as the code computes it;
    nothing is asked of the readings before), the scraper of that resource
    has been invoked at most once in all;
    (3) a thread at the lock can move exactly when the lock of its own
    resource is free, whatever the state of the other resources;
    (4) a step of a thread that calls on another resource neither blocks
    nor unblocks a thread;
    (5) while a thread has an invocation in flight, a forced call on
    another resource whose lock is free gets its own invocation in flight
    in three steps.
    And (6), from the start, two threads that call on different resources
    can both have their invocations in flight. *)
Theorem concurrent_refresh (c0 c : config) (sched : list nat) :
  initial c0 ->
  run sched c0 = Some c ->
  (forall i j,
     in_flight c i = true -> in_flight c j = true ->
     target (threads c i) = target (threads c j) -> i = j)
  /\ (forall r, quiet r c0 -> within_window r c -> fetches r c <= 1)
  /\ (forall i,
        at_ (threads c i) = Acquire ->
        (can_move c i <-> _lock (resources c (target (threads c i))) = false))
  /\ (forall i j c',
        target (threads c i) <> target (threads c j) ->
        step_thread j c = Some c' ->
        (can_move c i <-> can_move c' i))
  /\ (forall i j,
        in_flight c i = true ->
        target (threads c j) <> target (threads c i) ->
        at_ (threads c j) = Guard ->
        forced (threads c j) = true ->
        _lock (resources c (target (threads c j))) = false ->
        exists c',
          run [j; j; j] c = Some c'
          /\ in_flight c' i = true /\ in_flight c' j = true)
  /\ (exists c2,
        run [0; 1; 0; 1; 0; 1] one_caller_each = Some c2
        /\ target (threads c2 0) <> target (threads c2 1)
        /\ in_flight c2 0 = true /\ in_flight c2 1 = true).
Proof.
  intros Hinit Hrun.
  pose proof (mutex_run sched c0 c Hrun (mutex_initial c0 Hinit)) as Hm.
  split; [| split; [| split; [| split; [| split]]]].
  - intros i j Hi Hj. apply Hm; apply in_flight_holds; assumption.
  - intros r Hquiet Hwin.
    apply (fetched_once_run r sched c0 c Hrun (mutex_initial c0 Hinit)
             Hquiet Hwin).
    destruct Hinit as (_ & _ & Hnone & _).
    unfold fetched_once, fetches. rewrite Hnone. cbn. split; [lia | discriminate].
  - intros i Hpc. rewrite can_move_iff, Hpc. reflexivity.
  - intros i j c' Hne Hstep. apply (other_resource_step i j c c' Hne Hstep).
  - intros i j. apply forced_call_overtakes.
  - apply (run_reaches [0; 1; 0; 1; 0; 1] one_caller_each
             (fun c2 => target (threads c2 0) <> target (threads c2 1)
                        /\ in_flight c2 0 = true /\ in_flight c2 1 = true)).
    vm_compute. repeat split. discriminate.
Qed.

(** The two callers of [two_callers]: thread 1 passes the outer guard at
    1000, thread 0 passes it at 1001, fetches and stamps the resource with
    1100, and thread 1 then finds 1101 under the lock.  The readings span
    more than the interval of 60; those after the stamp lie within it. *)
Lemma concurrent_refresh_witness :
  exists c,
    run [1; 0; 0; 0; 0; 0; 0; 1; 1; 1] two_callers = Some c
    /\ fetches 0 c <= 1.
Proof.
  pose proof (run_reaches [1; 0; 0; 0; 0; 0; 0; 1; 1; 1] two_callers
                (fun c => stamped c = [(0, 3)]
                          /\ clock c = clock two_callers
                          /\ _refresh_interval (resources c 0) = 60%float))
    as Hreach.
  destruct Hreach as (c & Hrun & Hstamped & Hclock & Hint).
  { vm_compute. repeat split. }
  exists c. split; [exact Hrun |].
  refine (proj1 (proj2 (concurrent_refresh two_callers c
                          [1; 0; 0; 0; 0; 0; 0; 1; 1; 1]
                          (initial_start _ _ _ _) Hrun)) 0 _ _).
  - split.
    + intros i _. reflexivity.
    + intros n. eexists. reflexivity.
  - intros k k' Hin Hlt. rewrite Hstamped in Hin. rewrite Hclock, Hint.
    destruct Hin as [Hin | []]. inversion Hin; subst k.
    do 4 (destruct k' as [| k']; [lia |]).
    destruct k'; reflexivity.
Defined.

(** C9 as stated fails when the fetch fails: two unforced calls on the
    same resource, both past the outer guard before either takes the lock,
    outside the window, with a scraper that raises RequestNotOKError.  Each
    call invokes the scraper, one after the other, and returns
    [(False, None)]. *)
Lemma concurrent_calls_fetch_twice_on_failure :
  initial two_callers_failing
  /\ (forall i, threads two_callers_failing i
                = {| target := 0; forced := false; at_ := Guard |})
  /\ (_last_refresh_time (resources two_callers_failing 0)
      + _refresh_interval (resources two_callers_failing 0)
      <=? clock two_callers_failing 0)%float = true
  /\ exists c,
       run [0; 1; 0; 0; 0; 0; 1; 1; 1; 1] two_callers_failing = Some c
       /\ invoked c = [0; 0]
       /\ fetches 0 c = 2
       /\ at_ (threads c 0) = Finished (Return (false, None))
       /\ at_ (threads c 1) = Finished (Return (false, None)).
Proof.
  split; [apply initial_start |].
  split; [reflexivity |].
  split; [vm_compute; reflexivity |].
  apply (run_reaches [0; 1; 0; 0; 0; 0; 1; 1; 1; 1] two_callers_failing
           (fun c => invoked c = [0; 0] /\ fetches 0 c = 2
                     /\ at_ (threads c 0) = Finished (Return (false, None))
                     /\ at_ (threads c 1) = Finished (Return (false, None)))).
  vm_compute. repeat split.
Qed.

(** * Further properties *)

(** ** refresh: what it keeps and what it lets through *)

(** X1.  On a response that is not OK every scraper of RESOURCE_MAP raises
    RequestNotOKError, whatever the body, and a refresh of a resource with
    that scraper returns [(False, None)]. *)
Theorem not_ok_response_is_swallowed
    (id url : string) (f : Scraper) (get : Requests) (u : string)
    (response : Response) (refresh_interval : float) (w : World) :
  In (id, (url, f)) RESOURCE_MAP ->
  get u = Ok response ->
  ok response = false ->
  f get u = Raise RequestNotOKError
  /\ fst (refresh true (__init__ u (func_of f (fun _ => get)) refresh_interval, w))
     = Return (false, None).
Proof.
  intros Hentry Hget Hok.
  assert (Hf : f get u = Raise RequestNotOKError).
  { cbn in Hentry.
    repeat (destruct Hentry as [Hentry | Hentry];
            [inversion Hentry; subst id url f; clear Hentry |]);
      try contradiction;
      unfold get_anonymous_proxies, get_free_proxy_list_proxies,
        get_proxy_daily_http_proxies, get_proxy_daily_socks4_proxies,
        get_proxy_daily_socks5_proxies, get_socks_proxies, get_ssl_proxies,
        get_uk_proxies, get_us_proxies, scrape_table, scrape_region, bind;
      rewrite Hget, Hok; reflexivity. }
  split; [exact Hf |].
  unfold_refresh. unfold func_of. rewrite Hf. reflexivity.
Qed.

Lemma not_ok_response_is_swallowed_witness :
  get_ssl_proxies (serving (mkResponse false (soup ftp_page) (text ftp_page)))
                  "https://www.sslproxies.org/"
  = Raise RequestNotOKError
  /\ fst (refresh true
            (__init__ "https://www.sslproxies.org/"
               (func_of get_ssl_proxies
                  (fun _ => serving (mkResponse false (soup ftp_page) (text ftp_page))))
               60, sample_world))
     = Return (false, None).
Proof.
  apply (not_ok_response_is_swallowed
           "ssl-proxy" "https://www.sslproxies.org/" get_ssl_proxies
           (serving (mkResponse false (soup ftp_page) (text ftp_page)))
           "https://www.sslproxies.org/"
           (mkResponse false (soup ftp_page) (text ftp_page)) 60 sample_world).
  - cbn. auto 10.
  - reflexivity.
  - reflexivity.
Defined.

(** X2.  An exception of the scraper other than InvalidHTMLError and
    RequestNotOKError leaves refresh as it is: the caller gets it.  The
    lock is released on the way out and the resource is as before. *)
Theorem refresh_propagates_other_errors
    (self : ProxyResource) (w : World) (force : bool) (e : exn) :
  _lock self = false ->
  (force = true
   \/ ((now w (ticks w)
        <? _last_refresh_time self + _refresh_interval self)%float = false
       /\ (_last_refresh_time self + _refresh_interval self
           <=? now w (S (ticks w)))%float = true)) ->
  _func self (_url self) (List.length (fetched w)) = Raise e ->
  e <> InvalidHTMLError ->
  e <> RequestNotOKError ->
  exists w',
    refresh force (self, w) = (Throw e, (self, w'))
    /\ fetched w' = (fetched w ++ [_url self])%list.
Proof.
  intros Hlock Hgo Hraise H1 H2.
  destruct self as [url func interval lock last]. cbn in *. subst lock.
  unfold_refresh.
  destruct force; cbn.
  - rewrite Hraise. destruct e; try congruence; cbn; eexists; split; reflexivity.
  - destruct Hgo as [Hgo | [Hgo1 Hgo2]]; [discriminate |].
    rewrite Hgo1. cbn. rewrite Hgo2. cbn.
    rewrite Hraise. destruct e; try congruence; cbn; eexists; split; reflexivity.
Qed.

Lemma refresh_propagates_other_errors_witness :
  exists w',
    refresh true
      (__init__ "https://www.us-proxy.org"
         (func_of get_us_proxies (fun _ => serving short_row_page)) 60,
       sample_world)
    = (Throw IndexError,
       (__init__ "https://www.us-proxy.org"
          (func_of get_us_proxies (fun _ => serving short_row_page)) 60, w'))
    /\ fetched w' = ["https://www.us-proxy.org"].
Proof.
  apply (refresh_propagates_other_errors
           (__init__ "https://www.us-proxy.org"
              (func_of get_us_proxies (fun _ => serving short_row_page)) 60)
           sample_world true IndexError).
  - reflexivity.
  - left. reflexivity.
  - reflexivity.
  - discriminate.
  - discriminate.
Defined.

(** X3.  A call of refresh that starts with the lock free never blocks
    and ends with the lock free; it changes neither the url, the scraper
    nor the interval of the resource; it reads the clock at most three
    times and invokes the scraper at most once; and it changes
    [_last_refresh_time] only when it returns [(True, proxies)]. *)
Theorem refresh_frame
    (force : bool) (self self' : ProxyResource) (w w' : World)
    (c : completion (bool * option (set Proxy))) :
  _lock self = false ->
  refresh force (self, w) = (c, (self', w')) ->
  c <> Blocked
  /\ _lock self' = false
  /\ _url self' = _url self
  /\ _func self' = _func self
  /\ _refresh_interval self' = _refresh_interval self
  /\ now w' = now w
  /\ ticks w <= ticks w' <= ticks w + 3
  /\ (fetched w' = fetched w \/ fetched w' = (fetched w ++ [_url self])%list)
  /\ (_last_refresh_time self' <> _last_refresh_time self ->
      exists proxies, c = Return (true, Some proxies)).
Proof.
  intros Hlock.
  destruct self as [url func interval lock last]. cbn in Hlock. subst lock.
  unfold_refresh.
  destruct force; cbn.
  - destruct (func url (List.length (fetched w))) as [ps | []]; cbn;
      intros H; inversion H; subst; cbn in *;
      repeat split; try discriminate; try lia; try congruence; eauto.
  - destruct (now w (ticks w) <? last + interval)%float; cbn.
    + intros H; inversion H; subst; cbn.
      repeat split; try discriminate; try lia; try congruence; auto.
    + destruct (last + interval <=? now w (S (ticks w)))%float; cbn.
      * destruct (func url (List.length (fetched w))) as [ps | []]; cbn;
          intros H; inversion H; subst; cbn in *;
          repeat split; try discriminate; try lia; try congruence; eauto.
      * intros H; inversion H; subst; cbn.
        repeat split; try discriminate; try lia; try congruence; auto.
Qed.

Lemma refresh_frame_witness :
  _lock (with_last_refresh_time 1002 sample_resource) = false
  /\ ticks sample_world <= 3 <= ticks sample_world + 3.
Proof.
  destruct (refresh_frame false sample_resource
              (with_last_refresh_time 1002 sample_resource)
              sample_world
              {| now := now sample_world; ticks := 3;
                 fetched := ["http://www.proxy-daily.com"] |}
              (Return (true, Some (empty_set Proxy))) eq_refl eq_refl)
    as (_ & Hlock & _ & _ & _ & _ & Hticks & _).
  split; [exact Hlock | exact Hticks].
Defined.

(** X4.  The guard outside the lock needs no lock: an unforced call whose
    first reading [t] of the clock gives
    [_last_refresh_time + _refresh_interval > t], the sum being the rounded
    sum of float addition, returns [(False, None)] at once, also while the
    lock is held, having read the clock once and fetched nothing.  A call
    that has to fetch (the comparison is false, or the call is forced)
    waits for a lock that is held. *)
Theorem fast_path_takes_no_lock (self : ProxyResource) (w : World) :
  ((now w (ticks w)
    <? _last_refresh_time self + _refresh_interval self)%float = true ->
   refresh false (self, w)
   = (Return (false, None),
      (self, {| now := now w; ticks := S (ticks w); fetched := fetched w |})))
  /\ (_lock self = true ->
      (now w (ticks w)
       <? _last_refresh_time self + _refresh_interval self)%float = false ->
      fst (refresh false (self, w)) = Blocked)
  /\ (_lock self = true -> fst (refresh true (self, w)) = Blocked).
Proof.
  split; [apply refresh_too_soon |].
  destruct self as [url func interval lock last]. cbn.
  split.
  - intros -> Hdue. unfold_refresh. rewrite Hdue. reflexivity.
  - intros ->. reflexivity.
Qed.

(** At the rounded boundary the call does not take the fast path: stamped
    with 1700000000.25 and with an interval of 0.1, a resource whose lock
    is held makes a call that reads 1700000000.35 wait at the lock. *)
Lemma fast_path_takes_no_lock_witness :
  refresh false
    (with_lock_bit true (with_last_refresh_time 1000 sample_resource), sample_world)
  = (Return (false, None),
     (with_lock_bit true (with_last_refresh_time 1000 sample_resource),
      {| now := now sample_world; ticks := 1; fetched := [] |}))
  /\ fst (refresh false
            (with_lock_bit true
               (with_last_refresh_time 1700000000.25 boundary_resource),
             {| now := fun _ => 1700000000.35%float; ticks := 0; fetched := [] |}))
     = Blocked.
Proof.
  split.
  - apply (proj1 (fast_path_takes_no_lock
                    (with_lock_bit true (with_last_refresh_time 1000 sample_resource))
                    sample_world)).
    reflexivity.
  - apply (proj1 (proj2 (fast_path_takes_no_lock
                           (with_lock_bit true
                              (with_last_refresh_time 1700000000.25
                                 boundary_resource))
                           {| now := fun _ => 1700000000.35%float; ticks := 0;
                              fetched := [] |}))).
    + reflexivity.
    + reflexivity.
Defined.

(** X5.  What the two guards decide, in the arithmetic of the code.  Let
    [s] be the float sum [_last_refresh_time + _refresh_interval].  When
    the first reading [t0] does not give [s > t0] and the second reading
    [t1], taken under the lock, gives [s <= t1] (equality included), the
    call invokes the scraper; when the scraper returns, the call returns
    [(True, proxies)] with the scraper's proxies and stamps the resource
    with the third reading.  When the second reading does not give
    [s <= t1], the call returns [(False, None)] without a fetch. *)
Theorem due_refresh_fetches_and_stamps
    (self : ProxyResource) (w : World) :
  _lock self = false ->
  (now w (ticks w)
   <? _last_refresh_time self + _refresh_interval self)%float = false ->
  ((_last_refresh_time self + _refresh_interval self
    <=? now w (S (ticks w)))%float = true ->
   forall proxies,
     _func self (_url self) (List.length (fetched w)) = Ok proxies ->
     refresh false (self, w)
     = (Return (true, Some proxies),
        (with_last_refresh_time (now w (S (S (ticks w)))) self,
         {| now := now w; ticks := S (S (S (ticks w)));
            fetched := (fetched w ++ [_url self])%list |})))
  /\ ((_last_refresh_time self + _refresh_interval self
       <=? now w (S (ticks w)))%float = false ->
      refresh false (self, w)
      = (Return (false, None),
         (self, {| now := now w; ticks := S (S (ticks w));
                   fetched := fetched w |}))).
Proof.
  intros Hlock Hdue.
  destruct self as [url func interval lock last]. cbn in *. subst lock.
  split.
  - intros Hdue2 proxies Hok. unfold_refresh.
    rewrite Hdue. cbn. rewrite Hdue2. cbn. rewrite Hok. reflexivity.
  - intros Hearly. unfold_refresh.
    rewrite Hdue. cbn. rewrite Hearly. reflexivity.
Qed.

(** At the rounded boundary: the float sum 1700000000.25 + 0.1 is the
    float 1700000000.35, so a call that reads that time fetches. *)
Lemma due_refresh_fetches_and_stamps_witness :
  refresh false
    (with_last_refresh_time 1700000000.25 boundary_resource,
     {| now := fun _ => 1700000000.35%float; ticks := 0; fetched := [] |})
  = (Return (true, Some (empty_set Proxy)),
     (with_last_refresh_time 1700000000.35 boundary_resource,
      {| now := fun _ => 1700000000.35%float; ticks := 3;
         fetched := ["http://www.proxy-daily.com"] |})).
Proof.
  apply (proj1 (due_refresh_fetches_and_stamps
                  (with_last_refresh_time 1700000000.25 boundary_resource)
                  {| now := fun _ => 1700000000.35%float; ticks := 0;
                     fetched := [] |}
                  eq_refl eq_refl)).
  - reflexivity.
  - reflexivity.
Defined.

(** ** The scrapers and the two tables *)

Lemma table_row_source (t : table_source) (data : list string) (p : Proxy) :
  table_row t data = Ok p -> source p = VStr (table_source_id t).
Proof.
  destruct t; cbn [table_row];
    unfold row_http_https, row_socks, row_ssl;
    destruct_getitems; intros H; inversion H; reflexivity.
Qed.

Lemma proxies_of_source (type_ source_ : string) (inner_reg : list string) :
  forall acc proxies,
    proxies_of inner_reg type_ source_ acc = Ok proxies ->
    forall p, In p proxies -> In p acc \/ source p = VStr source_.
Proof.
  induction inner_reg as [| i rest IH]; intros acc proxies H p Hp; cbn in H.
  - inversion H; subst. auto.
  - unfold bind, Proxy_of_parts in H.
    destruct (split ":" i) as [| h [| q [| ? ?]]]; try discriminate.
    destruct (IH _ _ H p Hp) as [Hin | Hty]; [| auto].
    apply set_add_elim in Hin. destruct Hin as [-> | Hin]; auto.
Qed.

Lemma scrape_region_source (pattern : regex) (type_ source_ : string)
    (get : Requests) (url : string) (proxies : set Proxy) (p : Proxy) :
  scrape_region pattern type_ source_ get url = Ok proxies ->
  In p proxies ->
  source p = VStr source_.
Proof.
  unfold scrape_region, _get_proxy_daily_proxies_parse_inner, bind.
  destruct (get url) as [response |]; [| discriminate].
  destruct (ok response); cbn [negb]; [| discriminate].
  destruct (findall pattern (text response)) as [| region ?]; [discriminate |].
  destruct (findall inner_pattern region) as [| i rest] eqn:E; [discriminate |].
  intros H Hp.
  destruct (proxies_of_source _ _ _ _ _ H p Hp) as [[] | Hs]. exact Hs.
Qed.

(** The scrapers of RESOURCE_MAP, each as a table scraper or as a region
    scraper with its labels. *)
Lemma RESOURCE_MAP_cases (id url : string) (f : Scraper) :
  In (id, (url, f)) RESOURCE_MAP ->
  (exists t, id = table_source_id t /\ f = table_scraper t)
  \/ (exists pattern type_,
        f = scrape_region pattern type_ id
        /\ exists ids, dict_get type_ RESOURCE_TYPE_MAP = Some ids /\ In id ids).
Proof.
  intros Hentry. cbn in Hentry.
  repeat (destruct Hentry as [Hentry | Hentry];
          [inversion Hentry; subst id url f; clear Hentry |]);
    try contradiction.
  - left. exists anonymous_proxy. auto.
  - left. exists free_proxy_list. auto.
  - right. exists http_pattern, "http". split; [reflexivity |].
    eexists. split; [reflexivity |]. cbn. auto 6.
  - right. exists socks4_pattern, "socks4". split; [reflexivity |].
    eexists. split; [reflexivity |]. cbn. auto 6.
  - right. exists socks5_pattern, "socks5". split; [reflexivity |].
    eexists. split; [reflexivity |]. cbn. auto 6.
  - left. exists socks_proxy. auto.
  - left. exists ssl_proxy. auto.
  - left. exists uk_proxy. auto.
  - left. exists us_proxy. auto.
Qed.

(** X6.  Every record a scraper of RESOURCE_MAP returns names, in its
    source field, the key under which the scraper is registered. *)
Theorem records_name_their_source
    (id url : string) (f : Scraper) (get : Requests) (u : string)
    (proxies : set Proxy) (p : Proxy) :
  In (id, (url, f)) RESOURCE_MAP ->
  f get u = Ok proxies ->
  In p proxies ->
  source p = VStr id.
Proof.
  intros Hentry Hrun Hp.
  destruct (RESOURCE_MAP_cases id url f Hentry)
    as [(t & -> & ->) | (pattern & type_ & -> & _)].
  - destruct (table_scraper_records t _ _ _ p Hrun Hp) as (resp & row & _ & _ & Hrow).
    apply table_row_source in Hrow. exact Hrow.
  - apply (scrape_region_source _ _ _ _ _ _ p Hrun Hp).
Qed.

Lemma records_name_their_source_witness :
  source ftp_record = VStr "socks-proxy".
Proof.
  apply (records_name_their_source
           "socks-proxy" "https://www.socks-proxy.net" get_socks_proxies
           (serving ftp_page) "https://www.socks-proxy.net" [ftp_record] ftp_record).
  - cbn. auto 10.
  - reflexivity.
  - left. reflexivity.
Defined.

(** X7.  The records agree with RESOURCE_TYPE_MAP: for every scraper of
    RESOURCE_MAP other than get_socks_proxies, the type of a record it
    returns is a key of RESOURCE_TYPE_MAP and the scraper's own key is
    listed under it. *)
Theorem records_agree_with_type_map
    (id url : string) (f : Scraper) (get : Requests) (u : string)
    (proxies : set Proxy) (p : Proxy) :
  In (id, (url, f)) RESOURCE_MAP ->
  id <> "socks-proxy" ->
  f get u = Ok proxies ->
  In p proxies ->
  exists type_ ids,
    type p = VStr type_
    /\ dict_get type_ RESOURCE_TYPE_MAP = Some ids
    /\ In id ids.
Proof.
  intros Hentry Hid Hrun Hp.
  destruct (RESOURCE_MAP_cases id url f Hentry)
    as [(t & -> & ->) | (pattern & type_ & -> & ids & Hget & Hin)].
  - destruct (table_scraper_records t _ _ _ p Hrun Hp) as (resp & row & _ & _ & Hrow).
    destruct t; cbn [table_source_id] in *; try congruence;
      cbn [table_row] in Hrow; unfold row_http_https, row_ssl in Hrow;
      revert Hrow; destruct_getitems; intros Hrow; inversion Hrow; cbn [type];
      try match goal with
          | |- context [if ?b then _ else _] => destruct b
          end;
      do 2 eexists; (split; [reflexivity |]); (split; [reflexivity |]);
      cbn; auto 10.
  - exists type_, ids.
    rewrite (scrape_region_type _ _ _ _ _ _ p Hrun Hp). auto.
Qed.

Lemma records_agree_with_type_map_witness :
  exists type_ ids,
    type example_record = VStr type_
    /\ dict_get type_ RESOURCE_TYPE_MAP = Some ids
    /\ In "proxy-daily-http" ids.
Proof.
  apply (records_agree_with_type_map
           "proxy-daily-http" "http://www.proxy-daily.com"
           get_proxy_daily_http_proxies
           (serving (text_page (example_doc " ... " " ... ")))
           "http://www.proxy-daily.com" [example_record] example_record).
  - cbn. auto 10.
  - discriminate.
  - reflexivity.
  - left. reflexivity.
Defined.

(** X8.  The two tables fit together: the keys of RESOURCE_MAP are all
    different, every source listed in RESOURCE_TYPE_MAP is a key of
    RESOURCE_MAP, and every key of RESOURCE_MAP is listed under some type. *)
Theorem tables_fit_together :
  NoDup (map fst RESOURCE_MAP)
  /\ (forall type_ ids id,
        In (type_, ids) RESOURCE_TYPE_MAP -> In id ids ->
        exists entry, dict_get id RESOURCE_MAP = Some entry)
  /\ (forall id entry,
        In (id, entry) RESOURCE_MAP ->
        exists type_ ids, In (type_, ids) RESOURCE_TYPE_MAP /\ In id ids).
Proof.
  split; [| split].
  - cbn. repeat constructor; cbn; intuition discriminate.
  - intros type_ ids id Ht Hid. cbn in Ht.
    repeat (destruct Ht as [Ht | Ht];
            [inversion Ht; subst type_ ids; clear Ht |]);
      try contradiction; cbn in Hid;
      repeat (destruct Hid as [<- | Hid]; [eexists; reflexivity |]);
      contradiction.
  - intros id entry He. cbn in He.
    repeat (destruct He as [He | He];
            [inversion He; subst id entry; clear He |]);
      try contradiction.
    all: first
      [ exists "http"; eexists; split; [cbn; left; reflexivity | cbn; auto 10; fail]
      | exists "https"; eexists; split; [cbn; right; left; reflexivity | cbn; auto 10; fail]
      | exists "socks4"; eexists; split; [cbn; do 2 right; left; reflexivity | cbn; auto 10; fail]
      | exists "socks5"; eexists; split; [cbn; do 3 right; left; reflexivity | cbn; auto 10; fail] ].
Qed.

(** ** The table scrapers: every outcome *)

Lemma table_row_enough (t : table_source) (data : list string) :
  cells_read t <= List.length data -> exists p, table_row t data = Ok p.
Proof.
  destruct t; cbn [cells_read table_row];
    unfold row_http_https, row_socks, row_ssl, getitem, bind;
    intros H;
    do 7 (try (destruct data as [| ? data]; [cbn in H; lia |]));
    cbn; eauto.
Qed.

Lemma table_row_short (t : table_source) (data : list string) :
  List.length data < cells_read t -> table_row t data = Raise IndexError.
Proof.
  destruct t; cbn [cells_read table_row];
    unfold row_http_https, row_socks, row_ssl, getitem, bind;
    intros H;
    do 7 (try (destruct data as [| ? data]; [reflexivity |]));
    cbn in H; lia.
Qed.

Lemma for_rows_all_enough (t : table_source) (rows : list node) :
  forall acc,
    forallb (fun row => cells_read t <=? List.length (row_data row))%nat rows = true ->
    exists proxies, for_rows (table_row t) rows acc = Ok proxies.
Proof.
  induction rows as [| row rest IH]; intros acc H; cbn in H |- *; [eauto |].
  apply andb_true_iff in H. destruct H as [Hrow Hrest].
  apply Nat.leb_le in Hrow.
  destruct (table_row_enough t _ Hrow) as (p & ->). cbn. apply IH, Hrest.
Qed.

Lemma for_rows_some_short (t : table_source) (rows : list node) :
  forall acc,
    forallb (fun row => cells_read t <=? List.length (row_data row))%nat rows = false ->
    for_rows (table_row t) rows acc = Raise IndexError.
Proof.
  induction rows as [| row rest IH]; intros acc H; cbn in H |- *; [discriminate |].
  destruct (Nat.leb_spec (cells_read t) (List.length (row_data row))) as [Hrow | Hrow].
  - destruct (table_row_enough t _ Hrow) as (p & ->). cbn. apply IH, H.
  - rewrite (table_row_short t _ Hrow). reflexivity.
Qed.

(** X9.  On an OK response a table scraper ends in one of four ways, and
    the response decides which.  When the BeautifulSoup constructor raises
    (ParserRejectedMarkup on markup the parser gives up on), the scraper
    raises that exception: the handler catches AttributeError and KeyError
    only, and turns those into InvalidHTMLError.  When the document is
    parsed: InvalidHTMLError when the table with id proxylisttable or its
    tbody is missing; IndexError when some row of the tbody has fewer cells
    than the loop body reads; a set of records otherwise. *)
Theorem table_scraper_outcomes
    (t : table_source) (get : Requests) (u : string) (response : Response) :
  get u = Ok response ->
  ok response = true ->
  match soup response with
  | Raise e =>
      table_scraper t get u
      = Raise match e with
              | AttributeError | KeyError => InvalidHTMLError
              | _ => e
              end
  | Ok _ =>
      match table_body response with
      | None => table_scraper t get u = Raise InvalidHTMLError
      | Some tbody =>
          if forallb (fun row => cells_read t <=? List.length (row_data row))%nat
                     (find_all "tr" tbody)
          then exists proxies, table_scraper t get u = Ok proxies
          else table_scraper t get u = Raise IndexError
      end
  end.
Proof.
  intros Hget Hok. rewrite table_scraper_unfold.
  unfold scrape_table, table_body, bind. rewrite Hget, Hok. cbn [negb].
  destruct (soup response) as [soup_ | e]; [| destruct e; reflexivity].
  destruct (find "table" [("id", "proxylisttable")] soup_) as [table |];
    [| reflexivity].
  cbn [call_find].
  destruct (find "tbody" [] table) as [tbody |]; [| reflexivity].
  cbn [call_find_all].
  destruct (forallb _ (find_all "tr" tbody)) eqn:E.
  - destruct (for_rows_all_enough t _ (empty_set Proxy) E) as (proxies & ->).
    cbn. eauto.
  - rewrite (for_rows_some_short t _ (empty_set Proxy) E). reflexivity.
Qed.

Lemma table_scraper_outcomes_witness :
  table_scraper ssl_proxy (serving short_row_page) "https://www.sslproxies.org/"
  = Raise IndexError
  /\ table_scraper ssl_proxy (serving rejected_page) "https://www.sslproxies.org/"
     = Raise ParserRejectedMarkup.
Proof.
  split.
  - exact (table_scraper_outcomes ssl_proxy (serving short_row_page)
             "https://www.sslproxies.org/" short_row_page eq_refl eq_refl).
  - exact (table_scraper_outcomes ssl_proxy (serving rejected_page)
             "https://www.sslproxies.org/" rejected_page eq_refl eq_refl).
Defined.

(** ** Sets of records *)

Lemma for_rows_NoDup (body : list string -> result Proxy) (rows : list node) :
  forall acc proxies,
    NoDup acc -> for_rows body rows acc = Ok proxies -> NoDup proxies.
Proof.
  induction rows as [| row rest IH]; intros acc proxies Hacc H; cbn in H.
  - inversion H; subst. exact Hacc.
  - destruct (body (row_data row)) as [p |]; cbn in H; [| discriminate].
    apply (IH _ _ (set_add_nodup Proxy_eq_dec p Hacc) H).
Qed.

Lemma proxies_of_NoDup (type_ source_ : string) (inner_reg : list string) :
  forall acc proxies,
    NoDup acc -> proxies_of inner_reg type_ source_ acc = Ok proxies ->
    NoDup proxies.
Proof.
  induction inner_reg as [| i rest IH]; intros acc proxies Hacc H; cbn in H.
  - inversion H; subst. exact Hacc.
  - destruct (Proxy_of_parts (split ":" i) type_ source_) as [p |]; cbn in H;
      [| discriminate].
    apply (IH _ _ (set_add_nodup Proxy_eq_dec p Hacc) H).
Qed.

(** X10.  What a scraper of RESOURCE_MAP returns is a set: no record
    occurs twice in it, however often the document repeats a row or an
    address. *)
Theorem scrapers_return_sets
    (id url : string) (f : Scraper) (get : Requests) (u : string)
    (proxies : set Proxy) :
  In (id, (url, f)) RESOURCE_MAP ->
  f get u = Ok proxies ->
  NoDup proxies.
Proof.
  intros Hentry Hrun.
  destruct (RESOURCE_MAP_cases id url f Hentry)
    as [(t & -> & ->) | (pattern & type_ & -> & _)].
  - rewrite table_scraper_unfold in Hrun. apply scrape_table_Ok in Hrun.
    destruct Hrun as (response & _ & _ & Hloop).
    apply (for_rows_NoDup _ _ _ _ (NoDup_nil _) Hloop).
  - unfold scrape_region, _get_proxy_daily_proxies_parse_inner, bind in Hrun.
    destruct (get u) as [response |]; [| discriminate].
    destruct (ok response); cbn [negb] in Hrun; [| discriminate].
    destruct (findall pattern (text response)) as [| region ?]; [discriminate |].
    destruct (findall inner_pattern region) as [| i rest]; [discriminate |].
    apply (proxies_of_NoDup _ _ _ _ _ (NoDup_nil _) Hrun).
Qed.

Lemma scrapers_return_sets_witness :
  get_proxy_daily_http_proxies (serving (text_page repeated_doc))
                               "http://www.proxy-daily.com"
  = Ok [example_record]
  /\ NoDup [example_record].
Proof.
  split; [reflexivity |].
  apply (scrapers_return_sets
           "proxy-daily-http" "http://www.proxy-daily.com"
           get_proxy_daily_http_proxies
           (serving (text_page repeated_doc)) "http://www.proxy-daily.com").
  - cbn. auto 10.
  - reflexivity.
Defined.

(** ** Normal forms of the fields *)

Lemma lower_ascii_not_upper (c : ascii) : is_upper (lower_ascii c) = false.
Proof. destruct c as [[] [] [] [] [] [] [] []]; reflexivity. Qed.

Lemma lower_no_upper (s : string) : no_upper (lower s) = true.
Proof.
  unfold no_upper. induction s as [| c s IH]; cbn; [reflexivity |].
  now rewrite lower_ascii_not_upper, IH.
Qed.

Lemma table_row_fields (t : table_source) (data : list string) (p : Proxy) :
  table_row t data = Ok p ->
  exists d0 d1 d2 d3,
    nth_error data 0 = Some d0 /\ nth_error data 1 = Some d1
    /\ nth_error data 2 = Some d2 /\ nth_error data 3 = Some d3
    /\ host p = VStr d0 /\ port p = VStr d1
    /\ code p = VStr (lower d2) /\ country p = VStr (lower d3).
Proof.
  destruct t; cbn [table_row];
    unfold row_http_https, row_socks, row_ssl;
    destruct_getitems; intros H; inversion H; subst; cbn;
    do 4 eexists; repeat split; eassumption.
Qed.

(** X11.  A table scraper copies the host and the port of a row as they
    are written, and turns the country code and the country name into
    lower case with [str.lower]: no upper-case letter is left in them, be
    it one of A to Z or a capital letter of Latin-1. *)
Theorem table_records_are_normalised
    (t : table_source) (get : Requests) (u : string)
    (proxies : set Proxy) (p : Proxy) :
  table_scraper t get u = Ok proxies ->
  In p proxies ->
  exists response row d0 d1 d2 d3,
    get u = Ok response
    /\ In row (table_rows response)
    /\ nth_error (row_data row) 0 = Some d0
    /\ nth_error (row_data row) 1 = Some d1
    /\ nth_error (row_data row) 2 = Some d2
    /\ nth_error (row_data row) 3 = Some d3
    /\ host p = VStr d0 /\ port p = VStr d1
    /\ code p = VStr (lower d2) /\ country p = VStr (lower d3)
    /\ no_upper (lower d2) = true /\ no_upper (lower d3) = true.
Proof.
  intros Hrun Hp.
  destruct (table_scraper_records t _ _ _ p Hrun Hp) as (resp & row & Hget & Hrow & Hbody).
  destruct (table_row_fields t _ p Hbody)
    as (d0 & d1 & d2 & d3 & H0 & H1 & H2 & H3 & Hh & Hpo & Hc & Hn).
  exists resp, row, d0, d1, d2, d3.
  repeat split; auto using lower_no_upper.
Qed.

Lemma table_records_are_normalised_witness :
  exists response row d0 d1 d2 d3,
    serving aland_page "https://www.sslproxies.org/" = Ok response
    /\ In row (table_rows response)
    /\ nth_error (row_data row) 0 = Some d0
    /\ nth_error (row_data row) 1 = Some d1
    /\ nth_error (row_data row) 2 = Some d2
    /\ nth_error (row_data row) 3 = Some d3
    /\ host aland_record = VStr d0 /\ port aland_record = VStr d1
    /\ code aland_record = VStr (lower d2)
    /\ country aland_record = VStr (lower d3)
    /\ no_upper (lower d2) = true /\ no_upper (lower d3) = true.
Proof.
  apply (table_records_are_normalised ssl_proxy (serving aland_page)
           "https://www.sslproxies.org/" [aland_record] aland_record).
  - reflexivity.
  - left. reflexivity.
Defined.

(** ** The addresses of a region *)

Lemma rep_shape (f : ascii -> bool) (k : string -> option string) (hi : nat) :
  forall lo s r,
    rep f k lo hi s = Some r ->
    exists d rest,
      s = d ++ rest /\ all_chars f d = true
      /\ lo <= String.length d <= hi /\ k rest = Some r.
Proof.
  induction hi as [| hi IH]; intros lo s r H; cbn in H.
  - destruct (Nat.eqb_spec lo 0) as [-> | _]; [| discriminate].
    exists "", s. cbn. repeat split; auto.
  - assert (Hstop : (if (lo =? 0)%nat then k s else None) = Some r ->
                    exists d rest,
                      s = d ++ rest /\ all_chars f d = true
                      /\ lo <= String.length d <= S hi /\ k rest = Some r).
    { destruct (Nat.eqb_spec lo 0) as [-> | _]; [| discriminate].
      intros Hk. exists "", s. cbn. repeat split; auto. lia. }
    destruct s as [| a s]; [apply Hstop, H |].
    destruct (f a) eqn:Hfa; [| apply Hstop, H].
    destruct (rep f k (pred lo) hi s) as [r' |] eqn:E; [| apply Hstop, H].
    inversion H; subst r'.
    destruct (IH _ _ _ E) as (d & rest & -> & Hd & Hlen & Hk).
    exists (String a d), rest. cbn. rewrite Hfa, Hd. repeat split; auto; lia.
Qed.

Lemma match_char (c : ascii) (k : string -> option string) (s r : string) :
  match s with
  | EmptyString => None
  | String a s' => if atom_matches (Chr c) a then k s' else None
  end = Some r ->
  exists s', s = String c s' /\ k s' = Some r.
Proof.
  destruct s as [| a s]; [discriminate |]. cbn.
  destruct (Ascii.eqb_spec a c) as [-> | _]; [eauto | discriminate].
Qed.

(** What the address pattern matches: four groups of one to three digits
    with dots between, a colon, and one to five digits. *)
Lemma inner_pattern_shape (s r : string) :
  match_items inner_pattern s = Some r ->
  exists a b c d q,
    s = dotted a b c d ++ ":" ++ q ++ r
    /\ digits 1 3 a /\ digits 1 3 b /\ digits 1 3 c /\ digits 1 3 d
    /\ digits 1 5 q.
Proof.
  unfold inner_pattern, digits, dotted. cbn [match_items]. intros H.
  apply rep_shape in H. destruct H as (a & s1 & -> & Ha & Hla & H).
  apply match_char in H. destruct H as (s2 & -> & H).
  apply rep_shape in H. destruct H as (b & s3 & -> & Hb & Hlb & H).
  apply match_char in H. destruct H as (s4 & -> & H).
  apply rep_shape in H. destruct H as (c & s5 & -> & Hc & Hlc & H).
  apply match_char in H. destruct H as (s6 & -> & H).
  apply rep_shape in H. destruct H as (d & s7 & -> & Hd & Hld & H).
  apply match_char in H. destruct H as (s8 & -> & H).
  apply rep_shape in H. destruct H as (q & s9 & -> & Hq & Hlq & H).
  inversion H; subst s9.
  exists a, b, c, d, q. repeat split; auto; try lia.
  repeat (rewrite ?append_assoc; cbn [append]). reflexivity.
Qed.

(** Every text [findall] reports is matched by the pattern. *)
Lemma findall_from_matches (p : regex) (s : string) :
  forall k x,
    In x (findall_from p k s) ->
    exists r, match_items p (x ++ r) = Some r.
Proof.
  induction s as [| c s IH]; intros k x Hx; cbn [findall_from] in Hx;
    [contradiction |].
  destruct k as [| k]; [| eapply IH; eauto].
  destruct (match_items p (String c s)) as [r |] eqn:E; [| eapply IH; eauto].
  destruct Hx as [<- | Hx]; [| eapply IH; eauto].
  destruct (match_items_suffix p _ _ E) as (x0 & Hs).
  rewrite Hs, take_matched. exists r. now rewrite <- Hs.
Qed.

Lemma split_without_sep (sep : ascii) (s : string) :
  all_chars (fun c => negb (Ascii.eqb c sep)) s = true -> split sep s = [s].
Proof.
  induction s as [| c s IH]; cbn; [reflexivity |].
  intros H. apply andb_true_iff in H. destruct H as [Hc Hs].
  apply negb_true_iff in Hc. rewrite Hc, (IH Hs). reflexivity.
Qed.

Lemma split_at_sep (sep : ascii) (a b : string) :
  all_chars (fun c => negb (Ascii.eqb c sep)) a = true ->
  all_chars (fun c => negb (Ascii.eqb c sep)) b = true ->
  split sep (a ++ String sep b) = [a; b].
Proof.
  intros Ha Hb. induction a as [| c a IH]; cbn.
  - rewrite Ascii.eqb_refl, (split_without_sep sep b Hb). reflexivity.
  - cbn in Ha. apply andb_true_iff in Ha. destruct Ha as [Hc Ha].
    apply negb_true_iff in Hc. rewrite Hc, (IH Ha). reflexivity.
Qed.

Lemma digits_no_colon (lo hi : nat) (s : string) :
  digits lo hi s -> all_chars not_colon s = true.
Proof.
  intros [H _]. induction s as [| c s IH]; cbn in *; [reflexivity |].
  apply andb_true_iff in H. destruct H as [Hc Hs]. rewrite (IH Hs), andb_true_r.
  unfold not_colon. destruct (Ascii.eqb_spec c ":") as [-> | _];
    [discriminate | reflexivity].
Qed.

Lemma address_splits (a b c d q : string) :
  digits 1 3 a -> digits 1 3 b -> digits 1 3 c -> digits 1 3 d -> digits 1 5 q ->
  split ":" (dotted a b c d ++ ":" ++ q) = [dotted a b c d; q].
Proof.
  intros Ha Hb Hc Hd Hq.
  apply (split_at_sep ":" (dotted a b c d) q).
  - unfold dotted. change (fun c0 => negb (Ascii.eqb c0 ":")) with not_colon.
    rewrite !all_chars_append.
    rewrite (digits_no_colon _ _ _ Ha), (digits_no_colon _ _ _ Hb),
      (digits_no_colon _ _ _ Hc), (digits_no_colon _ _ _ Hd). reflexivity.
  - apply (digits_no_colon _ _ _ Hq).
Qed.

Lemma proxies_of_addresses (type_ source_ : string) (l : list string) :
  (forall x, In x l -> exists r, match_items inner_pattern (x ++ r) = Some r) ->
  forall acc,
    (forall p, In p acc -> address_record type_ source_ p) ->
    exists proxies,
      proxies_of l type_ source_ acc = Ok proxies
      /\ (forall p, In p proxies -> address_record type_ source_ p)
      /\ (l <> [] -> proxies <> []).
Proof.
  induction l as [| x l IH]; intros Hl acc Hacc; cbn.
  - exists acc. repeat split; [assumption | congruence].
  - destruct (Hl x (or_introl eq_refl)) as (r & Hm).
    destruct (inner_pattern_shape _ _ Hm) as (a & b & c & d & q & Hx & Ha & Hb & Hc & Hd & Hq).
    assert (x = dotted a b c d ++ ":" ++ q) as ->.
    { replace (dotted a b c d ++ ":" ++ q ++ r)
        with ((dotted a b c d ++ ":" ++ q) ++ r) in Hx
        by (rewrite append_assoc; cbn; reflexivity).
      apply append_same_length in Hx; [tauto |].
      apply (f_equal String.length) in Hx.
      repeat rewrite length_append in Hx. repeat rewrite length_append. lia. }
    rewrite (address_splits a b c d q Ha Hb Hc Hd Hq). cbn.
    destruct (IH (fun y Hy => Hl y (or_intror Hy))
                 (add (mkProxy (VStr (dotted a b c d)) (VStr q) VNone VNone VNone
                               (VStr type_) (VStr source_)) acc))
      as (proxies & Hrun & Hall & _).
    + intros p Hp. apply set_add_elim in Hp. destruct Hp as [-> | Hp]; [| auto].
      exists a, b, c, d, q. auto 10.
    + exists proxies. repeat split; [assumption | assumption |].
      intros _ ->.
      assert (Hin : In (mkProxy (VStr (dotted a b c d)) (VStr q) VNone VNone VNone
                                (VStr type_) (VStr source_)) []).
      { clear - Hrun. revert Hrun.
        generalize (mkProxy (VStr (dotted a b c d)) (VStr q) VNone VNone VNone
                            (VStr type_) (VStr source_)).
        intros p0 Hrun.
        assert (Hkeep : forall l0 acc0 ps,
                   proxies_of l0 type_ source_ acc0 = Ok ps ->
                   forall y, In y acc0 -> In y ps).
        { induction l0 as [| z l0 IHl]; intros acc0 ps H y Hy; cbn in H.
          - inversion H; subst. exact Hy.
          - destruct (Proxy_of_parts (split ":" z) type_ source_) as [pz |];
              cbn in H; [| discriminate].
            apply (IHl _ _ H). apply set_add_intro1, Hy. }
        apply (Hkeep _ _ _ Hrun). apply set_add_intro2. reflexivity. }
      exact Hin.
Qed.

Lemma region_parse_cases (text_ type_ source_ : string) :
  (findall inner_pattern text_ = []
   /\ _get_proxy_daily_proxies_parse_inner text_ type_ source_
      = Raise InvalidHTMLError)
  \/ (exists proxies,
        _get_proxy_daily_proxies_parse_inner text_ type_ source_ = Ok proxies
        /\ proxies <> []
        /\ forall p, In p proxies -> address_record type_ source_ p).
Proof.
  unfold _get_proxy_daily_proxies_parse_inner.
  destruct (findall inner_pattern text_) as [| x l] eqn:E; [left; auto |].
  right.
  destruct (proxies_of_addresses type_ source_ (x :: l)) with (acc := empty_set Proxy)
    as (proxies & Hrun & Hall & Hne).
  - intros y Hy. rewrite <- E in Hy. apply (findall_from_matches _ _ _ _ Hy).
  - intros p [].
  - exists proxies. repeat split; [exact Hrun | apply Hne; discriminate | exact Hall].
Qed.


(** ** The proxy-daily scrapers: every outcome *)

Lemma scrape_region_outcomes
    (pattern : regex) (type_ source_ : string) (get : Requests) (u : string)
    (response : Response) :
  get u = Ok response ->
  (ok response = false
   /\ scrape_region pattern type_ source_ get u = Raise RequestNotOKError)
  \/ (ok response = true
      /\ (scrape_region pattern type_ source_ get u = Raise InvalidHTMLError
          \/ exists proxies,
               scrape_region pattern type_ source_ get u = Ok proxies
               /\ proxies <> []
               /\ forall p, In p proxies -> address_record type_ source_ p)).
Proof.
  intros Hget. unfold scrape_region, bind. rewrite Hget.
  destruct (ok response); cbn [negb]; [right | left; auto].
  split; [reflexivity |].
  destruct (findall pattern (text response)) as [| region rest]; [left; reflexivity |].
  destruct (region_parse_cases region type_ source_) as [[_ ->] | H]; auto.
Qed.

(** X13.  Given a response, a proxy-daily scraper ends in one of three
    ways: RequestNotOKError when the response is not OK; InvalidHTMLError;
    or a set of records that is never empty, each made of a dotted host and
    a port as text, with no country code, country or anonymity.  It raises
    nothing else. *)
Theorem region_scraper_outcomes
    (f : Scraper) (get : Requests) (u : string) (response : Response) :
  In f region_scrapers ->
  get u = Ok response ->
  (ok response = false /\ f get u = Raise RequestNotOKError)
  \/ (ok response = true
      /\ (f get u = Raise InvalidHTMLError
          \/ exists proxies,
               f get u = Ok proxies
               /\ proxies <> []
               /\ forall p, In p proxies ->
                    exists type_ source_, address_record type_ source_ p)).
Proof.
  intros Hf Hget. cbn in Hf.
  destruct Hf as [<- | [<- | [<- | []]]];
    unfold get_proxy_daily_http_proxies, get_proxy_daily_socks4_proxies,
      get_proxy_daily_socks5_proxies;
    match goal with
    | |- context [scrape_region ?pat ?ty ?src get u] =>
        destruct (scrape_region_outcomes pat ty src get u response Hget)
          as [H | [Hok [H | (proxies & Hrun & Hne & Hall)]]]
    end; auto;
    right; split; auto; right; exists proxies; repeat split; eauto.
Qed.

Lemma region_scraper_outcomes_witness :
  (ok (text_page socks5_doc) = false
   /\ get_proxy_daily_socks5_proxies (serving (text_page socks5_doc))
        "http://www.proxy-daily.com" = Raise RequestNotOKError)
  \/ (ok (text_page socks5_doc) = true
      /\ (get_proxy_daily_socks5_proxies (serving (text_page socks5_doc))
            "http://www.proxy-daily.com" = Raise InvalidHTMLError
          \/ exists proxies,
               get_proxy_daily_socks5_proxies (serving (text_page socks5_doc))
                 "http://www.proxy-daily.com" = Ok proxies
               /\ proxies <> []
               /\ forall p, In p proxies ->
                    exists type_ source_, address_record type_ source_ p)).
Proof.
  apply (region_scraper_outcomes get_proxy_daily_socks5_proxies
           (serving (text_page socks5_doc)) "http://www.proxy-daily.com"
           (text_page socks5_doc)).
  - cbn. auto.
  - reflexivity.
Defined.

(** A call of refresh on a free lock returns when the scraper returns or
    raises one of the two exceptions refresh handles. *)
Lemma refresh_returns (force : bool) (self : ProxyResource) (w : World) :
  _lock self = false ->
  (forall n,
     (exists proxies, _func self (_url self) n = Ok proxies)
     \/ _func self (_url self) n = Raise InvalidHTMLError
     \/ _func self (_url self) n = Raise RequestNotOKError) ->
  exists v, fst (refresh force (self, w)) = Return v.
Proof.
  intros Hlock Hfunc.
  destruct self as [url func interval lock last]. cbn in *. subst lock.
  specialize (Hfunc (List.length (fetched w))).
  unfold_refresh.
  destruct force; cbn.
  - destruct Hfunc as [(ps & ->) | [-> | ->]]; cbn; eauto.
  - destruct (now w (ticks w) <? last + interval)%float; cbn; [eauto |].
    destruct (last + interval <=? now w (S (ticks w)))%float; cbn; [| eauto].
    destruct Hfunc as [(ps & ->) | [-> | ->]]; cbn; eauto.
Qed.

(** X14.  Refreshing a proxy-daily resource never raises: when
    [requests.get] returns a response, whatever it holds, a call of refresh
    on a resource whose scraper is one of the three proxy-daily scrapers
    returns a pair. *)
Theorem proxy_daily_refresh_returns
    (f : Scraper) (net : nat -> Requests)
    (self : ProxyResource) (w : World) (force : bool) :
  In f region_scrapers ->
  (forall n u, exists response, net n u = Ok response) ->
  _func self = func_of f net ->
  _lock self = false ->
  exists v, fst (refresh force (self, w)) = Return v.
Proof.
  intros Hf Hnet Hfunc Hlock.
  apply refresh_returns; [exact Hlock |].
  intros n. rewrite Hfunc. unfold func_of.
  destruct (Hnet n (_url self)) as (response & Hget).
  cbn in Hf.
  destruct Hf as [<- | [<- | [<- | []]]];
    unfold get_proxy_daily_http_proxies, get_proxy_daily_socks4_proxies,
      get_proxy_daily_socks5_proxies;
    match goal with
    | |- context [scrape_region ?pat ?ty ?src (net n) (_url self)] =>
        destruct (scrape_region_outcomes pat ty src (net n) (_url self) response Hget)
          as [[_ H] | [_ [H | (proxies & H & _)]]]
    end; rewrite H; eauto.
Qed.

Lemma proxy_daily_refresh_returns_witness :
  exists v,
    fst (refresh true
           (__init__ "http://www.proxy-daily.com"
              (func_of get_proxy_daily_socks4_proxies
                 (fun _ => serving (text_page socks5_doc))) 60,
            sample_world))
    = Return v.
Proof.
  apply (proxy_daily_refresh_returns get_proxy_daily_socks4_proxies
           (fun _ => serving (text_page socks5_doc))).
  - cbn. auto.
  - intros n u. eexists. reflexivity.
  - reflexivity.
  - reflexivity.
Defined.

(** ** How many records a table gives *)

Lemma add_length (p : Proxy) (acc : set Proxy) :
  List.length (add p acc) <= S (List.length acc).
Proof.
  unfold add. induction acc as [| q acc IH]; cbn; [lia |].
  destruct (Proxy_eq_dec p q); cbn; lia.
Qed.

Lemma for_rows_length (body : list string -> result Proxy) (rows : list node) :
  forall acc proxies,
    for_rows body rows acc = Ok proxies ->
    List.length proxies <= List.length acc + List.length rows.
Proof.
  induction rows as [| row rest IH]; intros acc proxies H; cbn in H.
  - inversion H; subst. cbn. lia.
  - destruct (body (row_data row)) as [p |]; cbn in H; [| discriminate].
    apply IH in H. pose proof (add_length p acc). cbn. lia.
Qed.

(** X15.  A table scraper returns at most one record per row of the
    table body, and the empty set exactly when the body has no row.  And
    on an OK response whose table body has no row it does return: the
    empty set, not InvalidHTMLError as a proxy-daily scraper raises on a
    region without an address. *)
Theorem table_scraper_count (t : table_source) (get : Requests) (u : string) :
  (forall proxies,
     table_scraper t get u = Ok proxies ->
     exists response,
       get u = Ok response
       /\ List.length proxies <= List.length (table_rows response)
       /\ (proxies = [] <-> table_rows response = []))
  /\ (forall response tbody,
        get u = Ok response ->
        ok response = true ->
        table_body response = Some tbody ->
        find_all "tr" tbody = [] ->
        table_scraper t get u = Ok []).
Proof.
  split.
  - intros proxies Hrun. rewrite table_scraper_unfold in Hrun.
    apply scrape_table_Ok in Hrun. destruct Hrun as (response & Hget & _ & Hloop).
    exists response. split; [exact Hget |].
    pose proof (for_rows_length _ _ _ _ Hloop) as Hlen. cbn in Hlen.
    split; [exact Hlen |].
    split.
    + intros ->. apply for_rows_spec in Hloop. destruct Hloop as (Hall & _ & _).
      destruct (table_rows response) as [| row rest]; [reflexivity |].
      destruct (Hall row (or_introl eq_refl)) as (p & _ & []).
    + intros Hrows. rewrite Hrows in Hlen. cbn in Hlen.
      destruct proxies; [reflexivity | cbn in Hlen; lia].
  - intros response tbody Hget Hok Hbody Hrows.
    rewrite table_scraper_unfold.
    unfold scrape_table, table_body, bind in *. rewrite Hget, Hok. cbn [negb].
    destruct (soup response) as [soup_ |]; [| discriminate].
    destruct (find "table" [("id", "proxylisttable")] soup_) as [table |];
      [| discriminate].
    cbn [call_find]. rewrite Hbody. cbn [call_find_all]. rewrite Hrows.
    reflexivity.
Qed.

Lemma table_scraper_count_witness :
  (exists response,
     serving ftp_page "https://www.socks-proxy.net" = Ok response
     /\ List.length [ftp_record] <= List.length (table_rows response)
     /\ ([ftp_record] = [] <-> table_rows response = []))
  /\ table_scraper socks_proxy (serving empty_table_page)
       "https://www.socks-proxy.net" = Ok [].
Proof.
  split.
  - apply (proj1 (table_scraper_count socks_proxy (serving ftp_page)
                    "https://www.socks-proxy.net") [ftp_record]).
    reflexivity.
  - apply (proj2 (table_scraper_count socks_proxy (serving empty_table_page)
                    "https://www.socks-proxy.net")
             empty_table_page (Tag "tbody" [] []));
      reflexivity.
Defined.

(** ** Concurrent calls: the lock is never lost *)

Lemma owned_frame (c c' : config) (i : nat) (p : pc) :
  let r := target (threads c i) in
  (forall j, threads c' j
             = if (j =? i)%nat
               then {| target := r; forced := forced (threads c i); at_ := p |}
               else threads c j) ->
  (forall q, q <> r -> resources c' q = resources c q) ->
  (holding p = false -> holds c i = true -> _lock (resources c' r) = false) ->
  (holding p = false -> holds c i = false ->
   _lock (resources c' r) = _lock (resources c r)) ->
  owned c -> owned c'.
Proof.
  intros r Hth Hres Hleave Hout Ho q Hq.
  assert (Hother : forall j, j <> i -> holds c' j = holds c j
                                       /\ target (threads c' j) = target (threads c j)).
  { intros j Hj. unfold holds. rewrite Hth.
    destruct (Nat.eqb_spec j i); [contradiction | auto]. }
  assert (Hself : holds c' i = holding p /\ target (threads c' i) = r).
  { unfold holds. rewrite Hth, Nat.eqb_refl. auto. }
  assert (Hkeep : _lock (resources c q) = true -> (q = r -> holds c i = false) ->
                  exists j, target (threads c' j) = q /\ holds c' j = true).
  { intros Hlock Hi. destruct (Ho q Hlock) as (j & Hj & Hh).
    assert (j <> i) as Hne.
    { intros ->. rewrite (Hi (eq_sym Hj)) in Hh. discriminate. }
    exists j. destruct (Hother j Hne) as [-> ->]. auto. }
  destruct (Nat.eq_dec q r) as [-> | Hne].
  - destruct (holding p) eqn:Hp.
    + exists i. destruct Hself as [-> ->]. auto.
    + destruct (holds c i) eqn:Hi.
      * rewrite (Hleave eq_refl eq_refl) in Hq. discriminate.
      * rewrite (Hout eq_refl eq_refl) in Hq. apply Hkeep; auto.
  - rewrite (Hres q Hne) in Hq. apply Hkeep; [exact Hq | contradiction].
Qed.

Lemma owned_step (i : nat) (c c' : config) :
  step_thread i c = Some c' -> owned c -> owned c'.
Proof.
  intros Hstep Ho.
  destruct (step_thread_inv i c c' Hstep)
    as [(Hpc & p & Hp & Hc) | [(Hpc & Hfree & ->) | [(Hpc & _ & Hc)
       | [(Hpc & _ & _ & ->) | [(n & ps & Hpc & _ & ->)
       | [(n & e & v & Hpc & _ & ->) | [(ps & Hpc & ->) | (v & Hpc & ->)]]]]]]];
    try (destruct Hp as [-> | ->]); try (destruct Hc as [-> | ->]);
    (eapply (owned_frame c _ i);
     [ intros j; reflexivity
     | intros q Hq; cbn; rewrite ?upd_other by assumption; reflexivity
     | first [ discriminate
             | intros _ Hh; unfold holds in Hh; rewrite Hpc in Hh; discriminate
             | intros _ _; cbn; rewrite ?upd_same; reflexivity ]
     | first [ discriminate
             | intros _ Hh; unfold holds in Hh; rewrite Hpc in Hh; discriminate
             | reflexivity ]
     | assumption ]).
Qed.

Lemma owned_run (sched : list nat) :
  forall c c', run sched c = Some c' -> owned c -> owned c'.
Proof.
  induction sched as [| i rest IH]; intros c c' H Ho; cbn in H.
  - inversion H; subst. exact Ho.
  - destruct (step_thread i c) as [c1 |] eqn:E; [| discriminate].
    eapply IH; [exact H |]. eapply owned_step; eauto.
Qed.

Lemma owned_initial (c : config) : initial c -> owned c.
Proof. intros (_ & Hfree & _) r H. rewrite Hfree in H. discriminate. Qed.

(** A thread inside the [with] block can move unless it waits for a
    scraper that does not return. *)
Lemma holder_moves (c : config) (j : nat) :
  holds c j = true ->
  can_move c j \/ exists n, at_ (threads c j) = Fetching n /\ stalled c n = true.
Proof.
  intros Hh. rewrite can_move_iff. unfold holds in Hh.
  destruct (at_ (threads c j)) as [| | | n | ps | v | v]; cbn in Hh;
    try discriminate; auto.
  destruct (stalled c n) eqn:E; eauto.
Qed.

(** X16.  The lock is never lost, and a caller waits only for a scraper.
    In every configuration that concurrent calls of refresh reach from
    their start: a lock that is taken has a thread inside the with block of
    its resource, also after a scraper has raised; and a thread that cannot
    move has finished its call, or waits for its own scraper, which does
    not return, or stands at the lock of a resource held by a thread that
    either can move or waits for a scraper that does not return.  So no
    caller waits for ever when every invocation of a scraper returns, and a
    scraper that hangs keeps the callers of its resource waiting. *)
Theorem lock_is_never_lost (c0 c : config) (sched : list nat) :
  initial c0 ->
  run sched c0 = Some c ->
  owned c
  /\ (forall i,
        ~ can_move c i ->
        (exists v, at_ (threads c i) = Finished v)
        \/ (exists n, at_ (threads c i) = Fetching n /\ stalled c n = true)
        \/ (at_ (threads c i) = Acquire
            /\ exists j,
                 j <> i
                 /\ target (threads c j) = target (threads c i)
                 /\ holds c j = true
                 /\ (can_move c j
                     \/ exists n, at_ (threads c j) = Fetching n
                                  /\ stalled c n = true)))
  /\ ((forall n, stalled c n = false) ->
      forall i,
        ~ can_move c i ->
        (exists v, at_ (threads c i) = Finished v)
        \/ exists j, j <> i /\ can_move c j).
Proof.
  intros Hinit Hrun.
  assert (Ho : owned c) by (eapply owned_run; eauto using owned_initial).
  assert (Hstuck : forall i,
             ~ can_move c i ->
             (exists v, at_ (threads c i) = Finished v)
             \/ (exists n, at_ (threads c i) = Fetching n /\ stalled c n = true)
             \/ (at_ (threads c i) = Acquire
                 /\ exists j,
                      j <> i
                      /\ target (threads c j) = target (threads c i)
                      /\ holds c j = true
                      /\ (can_move c j
                          \/ exists n, at_ (threads c j) = Fetching n
                                       /\ stalled c n = true))).
  { intros i Hi. rewrite can_move_iff in Hi.
    destruct (at_ (threads c i)) as [| | | n | ps | v | v] eqn:Hpc;
      try (exfalso; apply Hi; exact I).
    - right; right. split; [reflexivity |].
      destruct (_lock (resources c (target (threads c i)))) eqn:Hlock;
        [| exfalso; apply Hi; reflexivity].
      destruct (Ho _ Hlock) as (j & Hj & Hh).
      exists j. repeat split; auto using holder_moves.
      intros ->. unfold holds in Hh. rewrite Hpc in Hh. discriminate.
    - right; left. exists n. split; [reflexivity |].
      destruct (stalled c n); [reflexivity | exfalso; apply Hi; reflexivity].
    - left. eauto. }
  split; [exact Ho |]. split; [exact Hstuck |].
  intros Hreturns i Hi.
  destruct (Hstuck i Hi) as [Hfin | [(n & _ & Hn) | (_ & j & Hne & _ & _ & Hj)]].
  - left. exact Hfin.
  - rewrite Hreturns in Hn. discriminate.
  - right. exists j. split; [exact Hne |].
    destruct Hj as [Hj | (n & _ & Hn)]; [exact Hj |].
    rewrite Hreturns in Hn. discriminate.
Qed.

(** Thread 0 takes the lock and its scraper does not return; thread 1
    comes to the lock and waits. *)
Lemma lock_is_never_lost_witness :
  exists c,
    run [0; 0; 0; 1] two_callers_stalled = Some c
    /\ owned c
    /\ (forall i,
          ~ can_move c i ->
          (exists v, at_ (threads c i) = Finished v)
          \/ (exists n, at_ (threads c i) = Fetching n /\ stalled c n = true)
          \/ (at_ (threads c i) = Acquire
              /\ exists j,
                   j <> i
                   /\ target (threads c j) = target (threads c i)
                   /\ holds c j = true
                   /\ (can_move c j
                       \/ exists n, at_ (threads c j) = Fetching n
                                    /\ stalled c n = true)))
    /\ ((forall n, stalled c n = false) ->
        forall i,
          ~ can_move c i ->
          (exists v, at_ (threads c i) = Finished v)
          \/ exists j, j <> i /\ can_move c j).
Proof.
  destruct (run [0; 0; 0; 1] two_callers_stalled) as [c |] eqn:Hrun.
  - exists c. split; [reflexivity |].
    exact (lock_is_never_lost two_callers_stalled c [0; 0; 0; 1]
             (initial_start _ _ _ _) Hrun).
  - exfalso. vm_compute in Hrun. discriminate.
Defined.

(** ** The scheme of a table record *)


